(** * Verification of Tools/dumper7_ue_vtable_db_generator.py

    A shallow embedding of the vtable database generator: the small part of
    Python's [re] the source uses, the line scanner [parse_header], the
    classifier [_process_declaration] / [_extract_func_name], the memoised
    resolver [_assign_base_indices] and the emitter [_format_output].

    Text is modelled as ASCII ([list ascii] / [string]); Python's [\s], [\w],
    [\b] and [str.strip] are given their ASCII meaning.  Recursion that
    Python may never finish (a cyclic parent chain) is given a fuel argument:
    [None] means the recursion did not finish within the fuel. *)

From Stdlib Require Import Ascii String List ZArith Lia Bool Permutation Sorted.
From stdpp Require Import base gmap list strings.
Import ListNotations.
Open Scope Z_scope.

(* ------------------------------------------------------------------ *)
(** ** Characters and strings *)

Definition is_space (c : ascii) : bool :=
  let n := nat_of_ascii c in
  ((9 <=? n)%nat && (n <=? 13)%nat) || ((28 <=? n)%nat && (n <=? 32)%nat).

Definition is_word (c : ascii) : bool :=
  let n := nat_of_ascii c in
  ((48 <=? n)%nat && (n <=? 57)%nat) || ((65 <=? n)%nat && (n <=? 90)%nat)
  || ((97 <=? n)%nat && (n <=? 122)%nat) || (n =? 95)%nat.

Definition achar_eqb (a b : ascii) : bool := Ascii.eqb a b.

Definition chars (s : string) : list ascii := list_ascii_of_string s.

(** [str.lstrip()] / [str.rstrip()] / [str.strip()] with no argument. *)
Fixpoint lstrip_ws (l : list ascii) : list ascii :=
  match l with
  | c :: r => if is_space c then lstrip_ws r else l
  | [] => []
  end.

Definition strip (l : list ascii) : list ascii := rev (lstrip_ws (rev (lstrip_ws l))).

(** [s.startswith(p)] *)
Fixpoint is_prefix (p s : list ascii) : bool :=
  match p, s with
  | [], _ => true
  | a :: p', b :: s' => achar_eqb a b && is_prefix p' s'
  | _ :: _, [] => false
  end.

(** string equality [s == t] *)
Fixpoint str_eqb (s t : list ascii) : bool :=
  match s, t with
  | [], [] => true
  | a :: s', b :: t' => achar_eqb a b && str_eqb s' t'
  | _, _ => false
  end.

(** [c in s] for a one-character [c] *)
Definition has_char (c : ascii) (s : list ascii) : bool := existsb (achar_eqb c) s.

(** [s.count(c)] for a one-character [c] *)
Definition count_char (c : ascii) (s : list ascii) : Z :=
  Z.of_nat (length (filter (achar_eqb c) s)).

(** [s.split(c)[0]]: the text before the first [c] *)
Fixpoint before_char (c : ascii) (s : list ascii) : list ascii :=
  match s with
  | [] => []
  | x :: r => if achar_eqb x c then [] else x :: before_char c r
  end.

(** [s.split()]: maximal runs of non-whitespace characters *)
Fixpoint split_ws_aux (cur : list ascii) (s : list ascii) : list (list ascii) :=
  match s with
  | [] => match cur with [] => [] | _ => [rev cur] end
  | x :: r =>
      if is_space x then
        match cur with [] => split_ws_aux [] r | _ => rev cur :: split_ws_aux [] r end
      else split_ws_aux (x :: cur) r
  end.

Definition split_ws (s : list ascii) : list (list ascii) := split_ws_aux [] s.

(** [s.lstrip("*&")] *)
Fixpoint lstrip_ptr (s : list ascii) : list ascii :=
  match s with
  | x :: r => if achar_eqb x "*"%char || achar_eqb x "&"%char then lstrip_ptr r else s
  | [] => []
  end.

(* ------------------------------------------------------------------ *)
(** ** The fragment of Python's [re] used by the source

    A backtracking matcher in continuation-passing style, following the
    order in which Python's engine tries alternatives: a greedy repetition
    tries the longest run first, a lazy one the shortest, an alternation
    its left branch first.  Every repetition in the source's patterns is a
    repetition of a single character class, which is what [RCls] covers. *)

Inductive rx : Type :=
  | RLit (s : list ascii)                         (* literal text *)
  | RCls (c : ascii -> bool) (min : nat) (greedy : bool)
                                                  (* [c]{min,} or [c]{min,}? *)
  | RWordB                                        (* \b *)
  | RSeq (a b : rx)
  | RAlt (a b : rx)
  | RGrp (a : rx).                                (* capturing group *)

(** A position in the subject: text already consumed (reversed) and the rest. *)
Record pos := Pos { pbefore : list ascii; pafter : list ascii }.

Definition advance (z : pos) (n : nat) : pos :=
  Pos (rev (firstn n (pafter z)) ++ pbefore z) (skipn n (pafter z)).

Fixpoint take_while (f : ascii -> bool) (l : list ascii) : list ascii :=
  match l with
  | x :: r => if f x then x :: take_while f r else []
  | [] => []
  end.

Fixpoint first_some {A B : Type} (xs : list A) (f : A -> option B) : option B :=
  match xs with
  | [] => None
  | x :: r => match f x with Some y => Some y | None => first_some r f end
  end.

Definition word_at (o : option ascii) : bool :=
  match o with Some c => is_word c | None => false end.

Definition caps := list (list ascii).

Fixpoint mt {R : Type} (r : rx) (z : pos) (cs : caps)
    (k : pos -> caps -> option R) : option R :=
  match r with
  | RLit s => if is_prefix s (pafter z) then k (advance z (length s)) cs else None
  | RCls c mn g =>
      let n := length (take_while c (pafter z)) in
      let counts := seq mn (S n - mn) in
      first_some (if g then rev counts else counts) (fun i => k (advance z i) cs)
  | RWordB =>
      if xorb (word_at (head (pbefore z))) (word_at (head (pafter z)))
      then k z cs else None
  | RSeq a b => mt a z cs (fun z' cs' => mt b z' cs' k)
  | RAlt a b =>
      match mt a z cs k with Some x => Some x | None => mt b z cs k end
  | RGrp a =>
      mt a z cs (fun z' cs' =>
        k z' (cs' ++ [firstn (length (pafter z) - length (pafter z')) (pafter z)]))
  end.

Definition run_at (r : rx) (z : pos) : option caps :=
  mt r z [] (fun _ cs => Some cs).

Fixpoint positions (before after : list ascii) : list pos :=
  match after with
  | [] => [Pos before []]
  | x :: r => Pos before after :: positions (x :: before) r
  end.

(** [re.search(p, s)]: the captures of the leftmost match *)
Definition re_search (r : rx) (s : list ascii) : option caps :=
  first_some (positions [] s) (run_at r).

(** [re.match(p, s)]: a match anchored at the start *)
Definition re_match (r : rx) (s : list ascii) : option caps := run_at r (Pos [] s).

Definition found {A : Type} (o : option A) : bool :=
  match o with Some _ => true | None => false end.

Fixpoint rseq (l : list rx) : rx :=
  match l with
  | [] => RLit []
  | [a] => a
  | a :: r => RSeq a (rseq r)
  end.

Definition s_star := RCls is_space 0 true.      (* \s*  *)
Definition s_plus := RCls is_space 1 true.      (* \s+  *)
Definition w_plus := RCls is_word 1 true.       (* \w+  *)
Definition lit (s : string) := RLit (chars s).

(* ------------------------------------------------------------------ *)
(** ** Preprocessor tracking *)

Definition EDITOR_MACROS : list string :=
  ["WITH_EDITOR"; "WITH_EDITORONLY_DATA"; "WITH_EDITOR_ONLY_DATA"]%string.

(** [#\s*if\s+(defined\s*\(\s*MACRO\s*\)|MACRO\b)] *)
Definition re_if_macro (macro : string) : rx :=
  rseq [lit "#"; s_star; lit "if"; s_plus;
        RGrp (RAlt (rseq [lit "defined"; s_star; lit "("; s_star; lit macro; s_star; lit ")"])
                   (RSeq (lit macro) RWordB))].

(** [#\s*ifdef\s+MACRO\b] *)
Definition re_ifdef_macro (macro : string) : rx :=
  rseq [lit "#"; s_star; lit "ifdef"; s_plus; lit macro; RWordB].

Definition _is_editor_ifdef (line : list ascii) : bool :=
  let stripped := strip line in
  existsb (fun macro => found (re_match (re_if_macro macro) stripped)
                        || found (re_match (re_ifdef_macro macro) stripped))
          EDITOR_MACROS.

Definition re_pp_if := rseq [lit "#"; s_star; lit "if"].
Definition re_pp_elif := rseq [lit "#"; s_star; lit "elif"].
Definition re_pp_else := rseq [lit "#"; s_star; lit "else"].
Definition re_pp_endif := rseq [lit "#"; s_star; lit "endif"].

(* ------------------------------------------------------------------ *)
(** ** Virtual function extractor *)

Record VirtualFunction := mkVF {
  vf_name : string;
  vf_is_destructor : bool;
  vf_line_number : Z
}.

(** [\bvirtual\b] *)
Definition _RE_VIRTUAL := rseq [RWordB; lit "virtual"; RWordB].
(** [\boverride\b] *)
Definition _RE_OVERRIDE := rseq [RWordB; lit "override"; RWordB].
(** [virtual\s+~\s*(\w+)\s*\(] *)
Definition _RE_DESTRUCTOR :=
  rseq [lit "virtual"; s_plus; lit "~"; s_star; RGrp w_plus; s_star; lit "("].

(** the character class [[\w:*&<>,\s]] *)
Definition func_cls (c : ascii) : bool :=
  is_word c || is_space c || has_char c (chars ":*&<>,").

(** [virtual\s+(?:[\w:*&<>,\s]+?)\s+(\w+)\s*\(] *)
Definition _RE_FUNC_NAME :=
  rseq [lit "virtual"; s_plus; RCls func_cls 1 false; s_plus; RGrp w_plus; s_star; lit "("].

(** group 1 of a successful search *)
Definition group1 (o : option caps) : option (list ascii) :=
  match o with Some (g :: _) => Some g | _ => None end.

(** The fallback loop of [_extract_func_name]:
    [for i, p in enumerate(parts): if p == "virtual" and i + 1 < len(parts): ...] *)
Fixpoint fallback_loop (parts rest : list (list ascii)) : option (list ascii) :=
  match rest with
  | [] => None
  | p :: rest' =>
      let name := lstrip_ptr (List.last parts []) in
      if str_eqb p (chars "virtual") then
        match rest' with
        | _ :: _ => match name with [] => fallback_loop parts rest' | _ => Some name end
        | [] => fallback_loop parts rest'
        end
      else fallback_loop parts rest'
  end.

Definition starts_tilde (s : list ascii) : bool := is_prefix (chars "~") s.

Definition _extract_func_name (decl : list ascii) : list ascii * bool :=
  match group1 (re_search _RE_DESTRUCTOR decl) with
  | Some g => ("~"%char :: g, true)
  | None =>
      match group1 (re_search _RE_FUNC_NAME decl) with
      | Some g => (g, false)
      | None =>
          let parts := split_ws (before_char "("%char decl) in
          match fallback_loop parts parts with
          | Some name => (name, starts_tilde name)
          | None => (chars "unknown", false)
          end
      end
  end.

Definition _process_declaration (decl : list ascii) (line_no : Z)
    (results : list VirtualFunction) : list VirtualFunction :=
  if negb (found (re_search _RE_VIRTUAL decl)) then results
  else if found (re_search _RE_OVERRIDE decl) then results
  else let '(name, is_dtor) := _extract_func_name decl in
       results ++ [mkVF (string_of_list_ascii name) is_dtor line_no].

(* ------------------------------------------------------------------ *)
(** ** The line scanner [parse_header]

    The local variables of [parse_header] as one state record; the Python
    list [pp_depth_stack] keeps its top at the end, as in the source. *)

Record ScanState := mkScan {
  results : list VirtualFunction;
  editor_depth : Z;
  pp_depth_stack : list bool;
  in_class : bool;
  brace_depth : Z;
  class_brace_depth : Z;
  accum : list ascii;
  accum_start_line : Z
}.

Definition scan_init : ScanState := mkScan [] 0 [] false 0 0 [] 0.

(** [\bclass\b[^;]*?\bNAME\b] with [NAME = re.escape(class_name)] *)
Definition class_pattern (class_name : string) : rx :=
  rseq [RWordB; lit "class"; RWordB;
        RCls (fun c => negb (achar_eqb c ";"%char)) 0 false;
        RWordB; lit class_name; RWordB].

Definition is_directive (raw_line : list ascii) : bool := is_prefix (chars "#") (strip raw_line).

(** The preprocessor branch of the loop body (the line starts with [#]). *)
Definition pp_step (st : ScanState) (line : list ascii) : ScanState :=
  if found (re_match re_pp_if line) then
    let is_editor := _is_editor_ifdef line in
    {| results := results st;
       editor_depth := if is_editor then editor_depth st + 1 else editor_depth st;
       pp_depth_stack := pp_depth_stack st ++ [is_editor];
       in_class := in_class st; brace_depth := brace_depth st;
       class_brace_depth := class_brace_depth st; accum := accum st;
       accum_start_line := accum_start_line st |}
  else if found (re_match re_pp_elif line) then st
  else if found (re_match re_pp_else line) then
    match pp_depth_stack st with
    | [] => st
    | stk =>
        if List.last stk false && (0 <? editor_depth st) then
          {| results := results st;
             editor_depth := editor_depth st - 1;
             pp_depth_stack := removelast stk ++ [false];
             in_class := in_class st; brace_depth := brace_depth st;
             class_brace_depth := class_brace_depth st; accum := accum st;
             accum_start_line := accum_start_line st |}
        else st
    end
  else if found (re_match re_pp_endif line) then
    match pp_depth_stack st with
    | [] => st
    | stk =>
        let was_editor := List.last stk false in
        {| results := results st;
           editor_depth := if was_editor && (0 <? editor_depth st)
                           then editor_depth st - 1 else editor_depth st;
           pp_depth_stack := removelast stk;
           in_class := in_class st; brace_depth := brace_depth st;
           class_brace_depth := class_brace_depth st; accum := accum st;
           accum_start_line := accum_start_line st |}
    end
  else st.

(** The virtual-function branch: accumulate and hand complete declarations
    to [_process_declaration]. *)
Definition decl_step (st : ScanState) (line_no : Z) (line : list ascii)
    (bd cbd : Z) : ScanState :=
  if negb (str_eqb (accum st) []) || found (re_search _RE_VIRTUAL line) then
    let asl := if str_eqb (accum st) [] then line_no else accum_start_line st in
    let acc := accum st ++ " "%char :: line in
    if has_char ";"%char acc || (has_char "{"%char acc && has_char "}"%char acc) then
      mkScan (_process_declaration acc asl (results st)) (editor_depth st)
             (pp_depth_stack st) true bd cbd [] asl
    else if has_char "{"%char acc then
      mkScan (_process_declaration acc asl (results st)) (editor_depth st)
             (pp_depth_stack st) true bd cbd [] asl
    else mkScan (results st) (editor_depth st) (pp_depth_stack st) true bd cbd acc asl
  else mkScan (results st) (editor_depth st) (pp_depth_stack st) true bd cbd
              (accum st) (accum_start_line st).

(** One iteration of [for line_no, raw_line in enumerate(lines, start=1)]. *)
Definition scan_step (class_name : string) (st : ScanState) (line_no : Z)
    (raw_line : list ascii) : ScanState :=
  let line := strip raw_line in
  if is_prefix (chars "#") line then pp_step st line
  else if 0 <? editor_depth st then st
  else if negb (in_class st) then
    if found (re_search (class_pattern class_name) raw_line) then
      let bd := count_char "{"%char raw_line - count_char "}"%char raw_line in
      if bd <=? 0 then
        mkScan (results st) (editor_depth st) (pp_depth_stack st) true 0 0
               (accum st) (accum_start_line st)
      else
        mkScan (results st) (editor_depth st) (pp_depth_stack st) true bd 1
               (accum st) (accum_start_line st)
    else st
  else
    let opens := count_char "{"%char raw_line in
    let closes := count_char "}"%char raw_line in
    let bd := brace_depth st + (opens - closes) in
    let cbd := if (class_brace_depth st =? 0) && (0 <? opens) then bd
               else class_brace_depth st in
    if (bd <=? 0) && (0 <? cbd) then
      mkScan (results st) (editor_depth st) (pp_depth_stack st) false bd cbd
             (accum st) (accum_start_line st)
    else decl_step st line_no line bd cbd.

Fixpoint scan_lines (class_name : string) (st : ScanState) (line_no : Z)
    (lines : list (list ascii)) : ScanState :=
  match lines with
  | [] => st
  | l :: rest => scan_lines class_name (scan_step class_name st line_no l) (line_no + 1) rest
  end.

(** The file system: a path is either absent or gives the lines
    [f.readlines()] returns. *)
Definition FileSystem := string -> option (list string).

(** [parse_header]; the second component is what it writes to stderr. *)
Definition parse_header (file : option (list string)) (filepath class_name : string)
    : list VirtualFunction * list string :=
  match file with
  | None => ([], ["  WARNING: File not found: " ++ filepath]%string)
  | Some lines => (results (scan_lines class_name scan_init 1 (map chars lines)), [])
  end.

(* ------------------------------------------------------------------ *)
(** ** Registry: [ClassVTable] and the insertion-ordered [class_map] *)

Record ClassVTable := mkCV {
  cv_class_name : string;
  cv_parent_name : option string;
  cv_own_functions : list VirtualFunction;
  cv_base_index : Z
}.

(** A Python [dict] keyed by class name, kept in insertion order. *)
Definition ClassMap := list (string * ClassVTable).

(** [d.get(k)] *)
Fixpoint dict_get {V : Type} (m : list (string * V)) (k : string) : option V :=
  match m with
  | [] => None
  | (k', v) :: r => if String.eqb k k' then Some v else dict_get r k
  end.

(** [d[k] = v]: overwrite in place, or append a new key at the end. *)
Fixpoint dict_set {V : Type} (m : list (string * V)) (k : string) (v : V) : list (string * V) :=
  match m with
  | [] => [(k, v)]
  | (k', v') :: r => if String.eqb k k' then (k', v) :: r else (k', v') :: dict_set r k v
  end.

(** [vtable.base_index = b] on the object stored under [k]. *)
Fixpoint set_base (m : ClassMap) (k : string) (b : Z) : ClassMap :=
  match m with
  | [] => []
  | (k', v) :: r =>
      if String.eqb k k'
      then (k', mkCV (cv_class_name v) (cv_parent_name v) (cv_own_functions v) b) :: r
      else (k', v) :: set_base r k b
  end.

(** Python truthiness of [vtable.parent_name] ([None] and [""] are false). *)
Definition parent_truthy (p : option string) : option string :=
  match p with
  | Some s => if String.eqb s "" then None else Some s
  | None => None
  end.

(** The slot width: [2] for a destructor, [1] otherwise. *)
Definition slot_width (is_destructor : bool) : Z := if is_destructor then 2 else 1.

(** [own_slots] of [resolve]: the loop over [vtable.own_functions]. *)
Fixpoint own_slots (fs : list VirtualFunction) : Z :=
  match fs with
  | [] => 0
  | f :: r => (if vf_is_destructor f then 2 else 1) + own_slots r
  end.

(* ------------------------------------------------------------------ *)
(** ** [_assign_base_indices]

    [resolve] threads the memo table [resolved] and the class map whose
    [base_index] fields it writes.  [fuel] bounds the recursion depth. *)

Fixpoint resolve (fuel : nat) (name : string) (resolved : gmap string Z) (cm : ClassMap)
    : option (Z * gmap string Z * ClassMap) :=
  match fuel with
  | O => None
  | S fuel' =>
      match resolved !! name with
      | Some t => Some (t, resolved, cm)
      | None =>
          match dict_get cm name with
          | None => Some (0, resolved, cm)
          | Some vtable =>
              let parent := match parent_truthy (cv_parent_name vtable) with
                            | Some p => resolve fuel' p resolved cm
                            | None => Some (0, resolved, cm)
                            end in
              match parent with
              | None => None
              | Some (parent_total, resolved1, cm1) =>
                  let cm2 := set_base cm1 name parent_total in
                  let total := parent_total + own_slots (cv_own_functions vtable) in
                  Some (total, <[name := total]> resolved1, cm2)
              end
          end
      end
  end.

Fixpoint resolve_all (fuel : nat) (names : list string) (resolved : gmap string Z)
    (cm : ClassMap) : option ClassMap :=
  match names with
  | [] => Some cm
  | n :: rest =>
      match resolve fuel n resolved cm with
      | None => None
      | Some (_, resolved', cm') => resolve_all fuel rest resolved' cm'
      end
  end.

(** [for name in class_map: resolve(name)] *)
Definition _assign_base_indices (fuel : nat) (class_map : ClassMap) : option ClassMap :=
  resolve_all fuel (map fst class_map) ∅ class_map.

(* ------------------------------------------------------------------ *)
(** ** [_format_output] *)

Record ClassOut := mkOut {
  out_parent : option string;
  out_base_index : Z;
  out_own_count : Z;
  out_total_slots : Z;
  out_functions : list (Z * string * bool)
}.

Record DbOut := mkDb {
  db_ue_version : string;
  db_generator : string;
  db_classes : list (string * ClassOut)
}.

(** The loop [for func in vtable.own_functions] starting at [idx]:
    the emitted rows and the final [idx]. *)
Fixpoint emit_functions (idx : Z) (fs : list VirtualFunction) : list (Z * string * bool) * Z :=
  match fs with
  | [] => ([], idx)
  | f :: r =>
      let idx' := if vf_is_destructor f then idx + 2 else idx + 1 in
      let '(rows, final) := emit_functions idx' r in
      ((idx, vf_name f, vf_is_destructor f) :: rows, final)
  end.

Definition format_class (vtable : ClassVTable) : ClassOut :=
  let '(functions, idx) := emit_functions (cv_base_index vtable) (cv_own_functions vtable) in
  mkOut (cv_parent_name vtable) (cv_base_index vtable)
        (Z.of_nat (length (cv_own_functions vtable))) idx functions.

Definition _format_output (class_map : ClassMap) (version : string) : DbOut :=
  mkDb version "ue_vtable_db_generator.py"
       (map (fun '(name, vtable) => (name, format_class vtable)) class_map).

(* ------------------------------------------------------------------ *)
(** ** [build_vtable_db] *)

(** A configuration entry [(class_name, parent_class_name, header_relative_path)]. *)
Definition ClassDef := (string * option string * string)%type.

Definition CLASS_DEFINITIONS : list ClassDef := [
  ("UObjectBase", None, "Engine/Source/Runtime/CoreUObject/Public/UObject/UObjectBase.h");
  ("UObjectBaseUtility", Some "UObjectBase", "Engine/Source/Runtime/CoreUObject/Public/UObject/UObjectBaseUtility.h");
  ("UObject", Some "UObjectBaseUtility", "Engine/Source/Runtime/CoreUObject/Public/UObject/Object.h");
  ("AActor", Some "UObject", "Engine/Source/Runtime/Engine/Classes/GameFramework/Actor.h");
  ("APawn", Some "AActor", "Engine/Source/Runtime/Engine/Classes/GameFramework/Pawn.h");
  ("ACharacter", Some "APawn", "Engine/Source/Runtime/Engine/Classes/GameFramework/Character.h");
  ("AController", Some "AActor", "Engine/Source/Runtime/Engine/Classes/GameFramework/Controller.h");
  ("APlayerController", Some "AController", "Engine/Source/Runtime/Engine/Classes/GameFramework/PlayerController.h");
  ("UGameViewportClient", Some "UObject", "Engine/Source/Runtime/Engine/Classes/Engine/GameViewportClient.h");
  ("AHUD", Some "AActor", "Engine/Source/Runtime/Engine/Classes/GameFramework/HUD.h");
  ("UEngine", Some "UObject", "Engine/Source/Runtime/Engine/Classes/Engine/Engine.h");
  ("UGameEngine", Some "UEngine", "Engine/Source/Runtime/Engine/Classes/Engine/GameEngine.h");
  ("UWorld", Some "UObject", "Engine/Source/Runtime/Engine/Classes/Engine/World.h");
  ("UGameInstance", Some "UObject", "Engine/Source/Runtime/Engine/Classes/Engine/GameInstance.h");
  ("APlayerState", Some "AActor", "Engine/Source/Runtime/Engine/Classes/GameFramework/PlayerState.h");
  ("AGameStateBase", Some "AActor", "Engine/Source/Runtime/Engine/Classes/GameFramework/GameStateBase.h");
  ("AGameModeBase", Some "AActor", "Engine/Source/Runtime/Engine/Classes/GameFramework/GameModeBase.h")
]%string.

(** [os.path.join(ue_root, header_rel.replace("/", os.sep))] on a POSIX host. *)
Definition path_join (a b : string) : string :=
  if String.prefix "/" b then b
  else if String.eqb a "" then b
  else if String.eqb (String.substring (String.length a - 1) 1 a) "/" then (a ++ b)%string
  else (a ++ "/" ++ b)%string.

(** The scanning loop of [build_vtable_db]: the class map and the stderr log. *)
Fixpoint build_class_map (fs : FileSystem) (ue_root : string) (defs : list ClassDef)
    (class_map : ClassMap) (log : list string) : ClassMap * list string :=
  match defs with
  | [] => (class_map, log)
  | (class_name, parent_name, header_rel) :: rest =>
      let header_path := path_join ue_root header_rel in
      let '(own_funcs, diag) := parse_header (fs header_path) header_path class_name in
      let vtable := mkCV class_name parent_name own_funcs 0 in
      build_class_map fs ue_root rest (dict_set class_map class_name vtable) (log ++ diag)
  end.

(** [build_vtable_db] over a given configuration list. *)
Definition build_vtable_db_with (fuel : nat) (fs : FileSystem) (defs : list ClassDef)
    (ue_root version : string) : option DbOut * list string :=
  let '(class_map, log) := build_class_map fs ue_root defs [] [] in
  (option_map (fun cm => _format_output cm version) (_assign_base_indices fuel class_map), log).

Definition build_vtable_db (fuel : nat) (fs : FileSystem) (ue_root version : string)
    : option DbOut * list string :=
  build_vtable_db_with fuel fs CLASS_DEFINITIONS ue_root version.

(* ------------------------------------------------------------------ *)
(** ** Auxiliary definitions for the proofs *)

Definition count_true (stk : list bool) : Z := Z.of_nat (length (filter (fun b : bool => b) stk)).

Definition depth_inv (st : ScanState) : Prop :=
  editor_depth st = count_true (pp_depth_stack st).

(** The total a class resolves to, read off its parent chain without memo. *)
Fixpoint chain_total (fuel : nat) (cm : ClassMap) (name : string) : option Z :=
  match fuel with
  | O => None
  | S fuel' =>
      match dict_get cm name with
      | None => Some 0
      | Some vt =>
          match parent_truthy (cv_parent_name vt) with
          | Some p => option_map (fun pt => pt + own_slots (cv_own_functions vt))
                                 (chain_total fuel' cm p)
          | None => Some (own_slots (cv_own_functions vt))
          end
      end
  end.

(** The total of a class's parent: what [resolve] stores as its [base_index]. *)
Definition parent_total (fuel : nat) (cm : ClassMap) (vt : ClassVTable) : option Z :=
  match parent_truthy (cv_parent_name vt) with
  | Some p => chain_total fuel cm p
  | None => Some 0
  end.

Definition shape (vt : ClassVTable) : option string * list VirtualFunction :=
  (cv_parent_name vt, cv_own_functions vt).

Definition same_shape (cm cm' : ClassMap) : Prop :=
  forall k, option_map shape (dict_get cm k) = option_map shape (dict_get cm' k).

(** What holds of the memo table and the class map between calls. *)
Definition resolve_inv (cm0 : ClassMap) (resolved : gmap string Z) (cm : ClassMap) : Prop :=
  same_shape cm0 cm /\ map fst cm = map fst cm0 /\
  (forall k t, resolved !! k = Some t -> exists f, chain_total f cm0 k = Some t) /\
  (forall k vt, dict_get cm k = Some vt -> is_Some (resolved !! k) ->
                exists f, parent_total f cm0 vt = Some (cv_base_index vt)).

(* ------------------------------------------------------------------ *)
(** ** Concrete inputs *)

(** A two-class map listing the child before its parent. *)
Definition ex_cm : ClassMap :=
  [("Child", mkCV "Child" (Some "Root") [mkVF "Tick" false 3] 0);
   ("Root", mkCV "Root" None [mkVF "~Root" true 2; mkVF "Init" false 3] 0)]%string.

Definition ex_cm_resolved : ClassMap :=
  [("Child", mkCV "Child" (Some "Root") [mkVF "Tick" false 3] 3);
   ("Root", mkCV "Root" None [mkVF "~Root" true 2; mkVF "Init" false 3] 0)]%string.

(** The Root / Mid / Leaf scenario, from header text. *)
Definition ex_root_h : list string :=
  ["class Root"; "{"; "public:"; "    virtual void funcA();"; "    virtual void funcB();"; "};"]%string.
Definition ex_mid_h : list string :=
  ["class Mid : public Root {"; "public:"; "    virtual void funcC();";
   "    virtual ~Mid();"; "    virtual void funcA() override;"; "};"]%string.
Definition ex_leaf_h : list string := ["class Leaf : public Mid {"; "};"]%string.

Definition ex_fs : FileSystem := fun p =>
  if String.eqb p "/ue/Root.h" then Some ex_root_h
  else if String.eqb p "/ue/Mid.h" then Some ex_mid_h
  else if String.eqb p "/ue/Leaf.h" then Some ex_leaf_h
  else None.

Definition ex_cfg : list ClassDef :=
  [("Root", None, "Root.h"); ("Mid", Some "Root", "Mid.h"); ("Leaf", Some "Mid", "Leaf.h")]%string.

Definition ex_registry : ClassMap :=
  [("Root", mkCV "Root" None [mkVF "funcA" false 4; mkVF "funcB" false 5] 0);
   ("Mid", mkCV "Mid" (Some "Root") [mkVF "funcC" false 3; mkVF "~Mid" true 4] 0);
   ("Leaf", mkCV "Leaf" (Some "Mid") [] 0)]%string.

Definition ex_db : DbOut :=
  mkDb "4.26" "ue_vtable_db_generator.py"
    [("Root", mkOut None 0 2 2 [(0, "funcA", false); (1, "funcB", false)]);
     ("Mid", mkOut (Some "Root") 2 2 5 [(2, "funcC", false); (3, "~Mid", true)]);
     ("Leaf", mkOut (Some "Mid") 5 0 5 [])]%string.

(** The parent links of a class map. *)
Definition parents_of (cm : ClassMap) : list (string * option string) :=
  map (fun '(k, vt) => (k, cv_parent_name vt)) cm.

(** A single-class configuration whose header names a base class. *)
Definition ex_cfg_mid_only : list ClassDef := [("Mid", None, "Mid.h")]%string.

(** [vtable.own_functions = fs] on the object stored under [k]. *)
Fixpoint set_own (m : ClassMap) (k : string) (fs : list VirtualFunction) : ClassMap :=
  match m with
  | [] => []
  | (k', v) :: r =>
      if String.eqb k k'
      then (k', mkCV (cv_class_name v) (cv_parent_name v) fs (cv_base_index v)) :: r
      else (k', v) :: set_own r k fs
  end.

(** [descends cm c d]: [c] is [d] or one of its ancestors through the map. *)
Inductive descends (cm : ClassMap) (c : string) : string -> Prop :=
  | desc_self : descends cm c c
  | desc_parent (d : string) (vt : ClassVTable) (p : string) :
      dict_get cm d = Some vt -> parent_truthy (cv_parent_name vt) = Some p ->
      descends cm c p -> descends cm c d.

Definition config_names (defs : list ClassDef) : list string := map (fun '(n, _, _) => n) defs.

(** The file system with one path removed. *)
Definition remove_file (fs : FileSystem) (path : string) : FileSystem :=
  fun q => if String.eqb q path then None else fs q.

Definition warning_for (path : string) : string := ("  WARNING: File not found: " ++ path)%string.

(** The Root / Mid / Leaf headers with [Root.h] missing. *)
Definition ex_fs_no_root : FileSystem := remove_file ex_fs "/ue/Root.h".

(** The emitted entry of class [k], if any. *)
Definition db_entry (db : DbOut) (k : string) : option ClassOut :=
  option_map snd (List.find (fun e => String.eqb (fst e) k) (db_classes db)).

(** A class map with [base_index] zeroed: everything [_assign_base_indices]
    must leave alone. *)
Definition strip_base (cm : ClassMap) : ClassMap :=
  map (fun '(k, v) => (k, mkCV (cv_class_name v) (cv_parent_name v) (cv_own_functions v) 0)) cm.

(** Two classes naming each other as parent. *)
Definition ex_cycle : ClassMap :=
  [("A", mkCV "A" (Some "B") [] 0); ("B", mkCV "B" (Some "A") [] 0)]%string.

(** How the loop of [parse_header] dispatches a line on the preprocessor:
    [#elif] and unrecognised directives are no-ops, like non-directive lines. *)
Inductive pp_kind_t := KPlain | KIf | KElse | KEndif.

Definition pp_kind (raw : list ascii) : pp_kind_t :=
  let line := strip raw in
  if negb (is_prefix (chars "#") line) then KPlain
  else if found (re_match re_pp_if line) then KIf
  else if found (re_match re_pp_elif line) then KPlain
  else if found (re_match re_pp_else line) then KElse
  else if found (re_match re_pp_endif line) then KEndif
  else KPlain.

(** Lines whose [#if] / [#else] / [#endif] directives are well nested, with
    [k] groups already open. *)
Fixpoint pp_balanced (k : nat) (ls : list (list ascii)) : bool :=
  match ls with
  | [] => Nat.eqb k 0
  | l :: r =>
      match pp_kind l with
      | KPlain => pp_balanced k r
      | KIf => pp_balanced (S k) r
      | KElse => match k with O => false | _ => pp_balanced k r end
      | KEndif => match k with O => false | S k' => pp_balanced k' r end
      end
  end.

(** A header with an editor-only group (with an [#else] branch) and a nested
    ordinary group inside the class. *)
Definition ex_pp_lines : list string :=
  ["class Foo {"; "#if WITH_EDITOR"; "  virtual void A();"; "#else";
   "  virtual void B();"; "#if PLATFORM_WINDOWS"; "  virtual void C();"; "#endif";
   "#endif"; "  virtual void D();"; "};"]%string.

(** The key list of a dict after [d[k] = v]: unchanged if [k] is present,
    [k] appended otherwise. *)
Definition add_key (ks : list string) (k : string) : list string :=
  if in_dec string_dec k ks then ks else ks ++ [k].

(** A configuration listing [Mid] twice: first with no parent, then under [Root]. *)
Definition ex_cfg_dup : list ClassDef :=
  [("Mid", None, "Mid.h"); ("Root", None, "Root.h"); ("Mid", Some "Root", "Mid.h")]%string.

(** Between lines of [parse_header]'s loop, before line [next]: the recorded
    line numbers increase and precede [next]; a pending declaration starts on
    an earlier line, after every recorded one. *)
Definition line_order_inv (st : ScanState) (next : Z) : Prop :=
  StronglySorted Z.lt (map vf_line_number (results st)) /\
  Forall (fun f => 1 <= vf_line_number f < next) (results st) /\
  (accum st <> [] -> 1 <= accum_start_line st < next /\
     Forall (fun f => vf_line_number f < accum_start_line st) (results st)).

(** The fields of the scanner state other than the preprocessor tracking. *)
Definition scan_frame (st : ScanState)
    : list VirtualFunction * bool * Z * Z * list ascii * Z :=
  (results st, in_class st, brace_depth st, class_brace_depth st, accum st,
   accum_start_line st).


(** A class body with a declaration under a recognised editor guard, a nested
    ordinary group inside it, and a declaration after it. *)
Definition ex_guard_pre : list string := ["class Foo {"]%string.
Definition ex_guard_open : string := "#if defined(WITH_EDITOR)".
Definition ex_guard_body : list string :=
  ["    virtual void EditorOnly();"; "#if PLATFORM_WINDOWS"; "    virtual void Win();";
   "#else"; "    virtual void Other();"; "#endif"]%string.
Definition ex_guard_post : list string := ["#endif"; "    virtual void Kept();"; "};"]%string.

(** Guards naming an editor macro that is not the first operand of [#if]. *)
Definition ex_guard_paren : list string :=
  ["class Foo {"; "#if (WITH_EDITOR)"; "    virtual void EditorOnly();"; "#endif"; "};"]%string.
Definition ex_guard_and : list string :=
  ["class Foo {"; "#if FOO && WITH_EDITOR"; "    virtual void EditorOnly();"; "#endif"; "};"]%string.

(** A C++ identifier, possibly preceded by [~]. *)
Definition is_ident (t : list ascii) : bool :=
  match t with [] => false | _ => forallb is_word t end.
Definition ident_name (t : list ascii) : bool :=
  is_ident t || (starts_tilde t && is_ident (tl t)).

(* ================================================================== *)
(** * Properties *)

(* ------------------------------------------------------------------ *)
(** ** Emitter *)

Lemma emit_functions_final (fs : list VirtualFunction) (idx : Z) :
  snd (emit_functions idx fs) = idx + own_slots fs.
Proof.
  revert idx; induction fs as [|f r IH]; intros idx; simpl; [lia|].
  destruct (emit_functions _ r) as [rows fin] eqn:E; simpl.
  specialize (IH (if vf_is_destructor f then idx + 2 else idx + 1)).
  rewrite E in IH; simpl in IH; destruct (vf_is_destructor f); lia.
Qed.

Lemma emit_functions_steps (fs : list VirtualFunction) (idx : Z) (i : nat)
    (a : Z) (n : string) (d : bool) :
  fst (emit_functions idx fs) !! i = Some (a, n, d) ->
  (forall a' n' d', fst (emit_functions idx fs) !! S i = Some (a', n', d') ->
                    a' = a + slot_width d) /\
  (fst (emit_functions idx fs) !! S i = None -> snd (emit_functions idx fs) = a + slot_width d).
Proof.
  revert idx i; induction fs as [|f r IH]; intros idx i Hi; simpl in *; [done|].
  destruct (emit_functions _ r) as [rows fin] eqn:E; simpl in *.
  destruct i as [|i]; simpl in *.
  - injection Hi as <- <- <-.
    destruct r as [|g r'].
    + simpl in E; injection E as <- <-; split; [done|].
      intros _; unfold slot_width; destruct (vf_is_destructor f); lia.
    + simpl in E.
      destruct (emit_functions _ r') as [rows' fin'] eqn:E'.
      injection E as <- <-; simpl; split; [|done].
      intros a' n' d' H; injection H as <- _ _.
      unfold slot_width; destruct (vf_is_destructor f); lia.
  - specialize (IH (if vf_is_destructor f then idx + 2 else idx + 1) i).
    rewrite E in IH; simpl in IH; exact (IH Hi).
Qed.

Lemma format_class_total (vt : ClassVTable) :
  out_total_slots (format_class vt) = cv_base_index vt + own_slots (cv_own_functions vt).
Proof.
  unfold format_class.
  pose proof (emit_functions_final (cv_own_functions vt) (cv_base_index vt)) as H.
  destruct (emit_functions _ _); simpl in *; exact H.
Qed.

Lemma format_output_classes (cm : ClassMap) (version name : string) (co : ClassOut) :
  In (name, co) (db_classes (_format_output cm version)) ->
  exists vt, In (name, vt) cm /\ co = format_class vt.
Proof.
  simpl; rewrite in_map_iff.
  intros [[k vt] [Heq Hin]]; injection Heq as Hk Hc; subst; eauto.
Qed.

(** C4 *)
(** Claim C4: in every emitted per-class function table a destructor row is
    followed by a row whose index is 2 greater, any other row by one whose
    index is 1 greater; for the last row the same holds of [total_slots].
    The step depends only on the row's [is_destructor] flag, through the
    constant [slot_width]. *)
Theorem emitted_slot_widths (cm : ClassMap) (version name : string) (co : ClassOut)
    (i : nat) (a : Z) (n : string) (d : bool) :
  In (name, co) (db_classes (_format_output cm version)) ->
  out_functions co !! i = Some (a, n, d) ->
  (forall a' n' d', out_functions co !! S i = Some (a', n', d') -> a' = a + slot_width d) /\
  (out_functions co !! S i = None -> out_total_slots co = a + slot_width d) /\
  slot_width d = (if d then 2 else 1).
Proof.
  intros Hin Hi.
  destruct (format_output_classes _ _ _ _ Hin) as [vt [_ ->]].
  unfold format_class in *.
  pose proof (emit_functions_steps (cv_own_functions vt) (cv_base_index vt) i a n d) as H.
  destruct (emit_functions _ _) as [rows fin]; simpl in *.
  destruct (H Hi) as [H1 H2]; repeat split; auto.
Qed.

(* ------------------------------------------------------------------ *)
(** ** Scanner: preprocessor depth *)


Lemma count_true_app (a b : list bool) : count_true (a ++ b) = count_true a + count_true b.
Proof. unfold count_true; rewrite filter_app, length_app; lia. Qed.

Lemma count_true_nonneg (a : list bool) : 0 <= count_true a.
Proof. unfold count_true; lia. Qed.

Lemma pp_step_inv (st : ScanState) (line : list ascii) :
  depth_inv st -> depth_inv (pp_step st line).
Proof.
  intros H0; pose proof H0 as H; unfold depth_inv in H |- *; unfold pp_step.
  destruct (found (re_match re_pp_if line)).
  { simpl; rewrite count_true_app; destruct (_is_editor_ifdef line); simpl; unfold count_true at 2;
    simpl; lia. }
  destruct (found (re_match re_pp_elif line)); [exact H|].
  destruct (found (re_match re_pp_else line)).
  { destruct (pp_depth_stack st) as [|b stk] eqn:Es; [congruence|].
    pose proof (app_removelast_last (l := b :: stk) false ltac:(discriminate)) as Hsplit.
    rewrite ?Es, Hsplit, count_true_app in H.
    destruct (List.last (b :: stk) false) eqn:Hl; cbn [andb]; [|first [exact H0 | rewrite <- Es; exact H0]].
    destruct (0 <? editor_depth st); [|first [exact H0 | rewrite <- Es; exact H0]].
    cbn [editor_depth pp_depth_stack]; rewrite count_true_app.
    change (count_true [true]) with 1 in H; change (count_true [false]) with 0; lia. }
  destruct (found (re_match re_pp_endif line)); [|exact H].
  destruct (pp_depth_stack st) as [|b stk] eqn:Es; [congruence|].
  cbn [editor_depth pp_depth_stack].
  pose proof (app_removelast_last (l := b :: stk) false ltac:(discriminate)) as Hsplit.
  rewrite ?Es, Hsplit, count_true_app in H.
  pose proof (count_true_nonneg (removelast (b :: stk))).
  destruct (List.last (b :: stk) false); destruct (0 <? editor_depth st) eqn:Hz; cbn [andb];
    [change (count_true [true]) with 1 in H; lia
    |apply Z.ltb_ge in Hz; change (count_true [true]) with 1 in H; lia
    |change (count_true [false]) with 0 in H; lia
    |change (count_true [false]) with 0 in H; lia].
Qed.

Lemma scan_step_inv (cls : string) (st : ScanState) (n : Z) (l : list ascii) :
  depth_inv st -> depth_inv (scan_step cls st n l).
Proof.
  intros H; unfold scan_step.
  destruct (is_prefix _ _); [apply pp_step_inv, H|].
  destruct (0 <? editor_depth st); [exact H|].
  destruct (negb (in_class st)).
  { destruct (found _); [|exact H]. destruct (_ <=? 0); exact H. }
  destruct (_ && _); [exact H|].
  unfold decl_step; repeat (destruct (_ || _) || destruct (found _) || destruct (has_char _ _));
    exact H.
Qed.

Lemma scan_lines_inv (cls : string) (lines : list (list ascii)) (st : ScanState) (n : Z) :
  depth_inv st -> depth_inv (scan_lines cls st n lines).
Proof.
  revert st n; induction lines as [|l r IH]; intros st n H; simpl; [exact H|].
  apply IH, scan_step_inv, H.
Qed.

(** C10 *)
(** Claim C10: after every line of any header, [editor_depth] equals the
    number of [true] flags on [pp_depth_stack], and so is never negative;
    unmatched [#endif] and [#else] lines cannot drive it below zero. *)
Theorem editor_depth_counts_guards (class_name : string) (lines : list (list ascii)) (k : nat) :
  let st := scan_lines class_name scan_init 1 (firstn k lines) in
  editor_depth st = count_true (pp_depth_stack st) /\ 0 <= editor_depth st.
Proof.
  simpl.
  assert (H : depth_inv (scan_lines class_name scan_init 1 (firstn k lines))).
  { apply scan_lines_inv; reflexivity. }
  split; [exact H|]. unfold depth_inv in H; rewrite H; apply count_true_nonneg.
Qed.

(* ------------------------------------------------------------------ *)
(** ** Scanner: editor-only blocks *)

Lemma scan_step_guarded (cls : string) (st : ScanState) (n : Z) (l : list ascii) :
  is_directive l = false -> 0 < editor_depth st -> scan_step cls st n l = st.
Proof.
  unfold is_directive, scan_step; intros Hd Hz.
  rewrite Hd; apply Z.ltb_lt in Hz; rewrite Hz; reflexivity.
Qed.

Lemma scan_lines_app (cls : string) (a b : list (list ascii)) (st : ScanState) (n : Z) :
  scan_lines cls st n (a ++ b) = scan_lines cls (scan_lines cls st n a) (n + Z.of_nat (length a)) b.
Proof.
  revert st n; induction a as [|l r IH]; intros st n; simpl.
  - f_equal; lia.
  - rewrite IH; f_equal; lia.
Qed.

Lemma scan_lines_guarded (cls : string) (blk : list (list ascii)) (st : ScanState) (n : Z) :
  Forall (fun l => is_directive l = false) blk -> 0 < editor_depth st ->
  scan_lines cls st n blk = st.
Proof.
  intros Hall Hz; revert n; induction Hall as [|l r Hl Hr IH]; intros n; simpl; [done|].
  rewrite scan_step_guarded by assumption; apply IH.
Qed.

(* ------------------------------------------------------------------ *)
(** ** Resolver: the parent chain it computes *)


Lemma chain_total_parent (fuel : nat) (cm : ClassMap) (name : string) (vt : ClassVTable) :
  dict_get cm name = Some vt ->
  chain_total (S fuel) cm name =
  option_map (fun pt => pt + own_slots (cv_own_functions vt)) (parent_total fuel cm vt).
Proof.
  intros H; simpl; rewrite H; unfold parent_total.
  destruct (parent_truthy _); reflexivity.
Qed.

Lemma chain_total_mono (f f' : nat) (cm : ClassMap) (name : string) (t : Z) :
  (f <= f')%nat -> chain_total f cm name = Some t -> chain_total f' cm name = Some t.
Proof.
  revert f' name t; induction f as [|f IH]; intros f' name t Hle H; [discriminate|].
  destruct f' as [|f']; [lia|]; simpl in *.
  destruct (dict_get cm name) as [vt|]; [|exact H].
  destruct (parent_truthy _) as [p|]; [|exact H].
  destruct (chain_total f cm p) eqn:E; [|discriminate].
  rewrite (IH f' p z) by (lia || exact E); exact H.
Qed.

Lemma chain_total_det (f f' : nat) (cm : ClassMap) (name : string) (t t' : Z) :
  chain_total f cm name = Some t -> chain_total f' cm name = Some t' -> t = t'.
Proof.
  intros H H'.
  apply (chain_total_mono f (f + f')) in H; [|lia].
  apply (chain_total_mono f' (f + f')) in H'; [|lia].
  congruence.
Qed.

Lemma parent_total_det (f f' : nat) (cm : ClassMap) (vt : ClassVTable) (t t' : Z) :
  parent_total f cm vt = Some t -> parent_total f' cm vt = Some t' -> t = t'.
Proof.
  unfold parent_total; destruct (parent_truthy _); [apply chain_total_det|congruence].
Qed.

Lemma chain_total_same_shape (f : nat) (cm cm' : ClassMap) (name : string) :
  same_shape cm cm' -> chain_total f cm name = chain_total f cm' name.
Proof.
  intros Hs; revert name; induction f as [|f IH]; intros name; [reflexivity|]; simpl.
  specialize (Hs name).
  destruct (dict_get cm name) as [vt|], (dict_get cm' name) as [vt'|]; try discriminate;
    [|reflexivity].
  simpl in Hs; injection Hs as Hp Ho; rewrite Hp, Ho.
  destruct (parent_truthy _); [rewrite IH|]; reflexivity.
Qed.

Lemma parent_total_same_shape (f : nat) (cm cm' : ClassMap) (vt vt' : ClassVTable) :
  same_shape cm cm' -> shape vt = shape vt' -> parent_total f cm vt = parent_total f cm' vt'.
Proof.
  intros Hs Hv; unfold parent_total, shape in *; injection Hv as -> _.
  destruct (parent_truthy _); [apply chain_total_same_shape, Hs|reflexivity].
Qed.

(** Facts about the in-place write [set_base]. *)
Lemma dict_get_set_base (cm : ClassMap) (k k' : string) (b : Z) :
  dict_get (set_base cm k b) k' =
  if String.eqb k' k
  then option_map (fun v => mkCV (cv_class_name v) (cv_parent_name v) (cv_own_functions v) b)
                  (dict_get cm k')
  else dict_get cm k'.
Proof.
  induction cm as [|[k0 v] r IH]; simpl; [destruct (String.eqb k' k); reflexivity|].
  destruct (String.eqb_spec k k0) as [->|Hne]; simpl.
  - destruct (String.eqb_spec k' k0); reflexivity.
  - rewrite IH.
    destruct (String.eqb_spec k' k0) as [->|Hne']; [|reflexivity].
    destruct (String.eqb_spec k0 k); [congruence|reflexivity].
Qed.

Lemma set_base_keys (cm : ClassMap) (k : string) (b : Z) :
  map fst (set_base cm k b) = map fst cm.
Proof.
  induction cm as [|[k0 v] r IH]; simpl; [reflexivity|].
  destruct (String.eqb k k0); simpl; [reflexivity|]; rewrite IH; reflexivity.
Qed.

Lemma set_base_shape (cm : ClassMap) (k : string) (b : Z) : same_shape cm (set_base cm k b).
Proof.
  intros k'; rewrite dict_get_set_base.
  destruct (String.eqb k' k); [|reflexivity].
  destruct (dict_get cm k'); reflexivity.
Qed.

Lemma same_shape_trans (a b c : ClassMap) : same_shape a b -> same_shape b c -> same_shape a c.
Proof. intros H1 H2 k; rewrite H1; apply H2. Qed.

Lemma dict_get_in_keys {V : Type} (m : list (string * V)) (k : string) :
  dict_get m k <> None <-> In k (map fst m).
Proof.
  induction m as [|[k0 v] r IH]; simpl; [tauto|].
  destruct (String.eqb_spec k k0) as [->|Hne]; [split; [auto|discriminate]|].
  rewrite IH; split; [auto|intros [->|H]; [congruence|exact H]].
Qed.

Section ResolveSound.
(** The class map [_assign_base_indices] was called on. *)
Variable cm0 : ClassMap.


Lemma resolve_inv_init : resolve_inv cm0 ∅ cm0.
Proof.
  split; [intros k; reflexivity|]. split; [reflexivity|].
  split; intros k; [intros t H|intros vt _ [t H]]; rewrite lookup_empty in H; discriminate.
Qed.

Lemma resolve_sound (fuel : nat) (name : string) (resolved : gmap string Z) (cm : ClassMap)
    (t : Z) (resolved' : gmap string Z) (cm' : ClassMap) :
  resolve_inv cm0 resolved cm ->
  resolve fuel name resolved cm = Some (t, resolved', cm') ->
  resolve_inv cm0 resolved' cm' /\ (exists f, chain_total f cm0 name = Some t) /\
  (forall k, is_Some (resolved !! k) -> is_Some (resolved' !! k)) /\
  (dict_get cm0 name <> None -> is_Some (resolved' !! name)).
Proof.
  revert name resolved cm t resolved' cm'.
  induction fuel as [|fuel IH]; intros name resolved cm t resolved' cm' Hinv Hr;
    [discriminate|].
  simpl in Hr.
  destruct (resolved !! name) as [t0|] eqn:Hm.
  { injection Hr as <- <- <-.
    split; [exact Hinv|]. split; [eapply Hinv, Hm|].
    split; [auto|]. intros _; rewrite Hm; eauto. }
  destruct (dict_get cm name) as [vt|] eqn:Hg.
  2:{ injection Hr as <- <- <-.
      assert (Hg0 : dict_get cm0 name = None).
      { destruct Hinv as (H1 & _); specialize (H1 name); rewrite Hg in H1.
        destruct (dict_get cm0 name); done. }
      split; [exact Hinv|]. split; [exists 1%nat; simpl; rewrite Hg0; reflexivity|].
      split; [auto|]. intros Hn; congruence. }
  assert (Hsh : exists vt0, dict_get cm0 name = Some vt0 /\ shape vt0 = shape vt).
  { destruct Hinv as (H1 & _); specialize (H1 name); rewrite Hg in H1.
    destruct (dict_get cm0 name) as [vt0|]; [|discriminate].
    exists vt0; split; [reflexivity|]; simpl in H1; congruence. }
  destruct Hsh as (vt0 & Hg0 & Hsh).
  (* the recursive call on the parent, or [0] *)
  assert (Hpar : forall pt resolved1 cm1,
    match parent_truthy (cv_parent_name vt) with
    | Some p => resolve fuel p resolved cm
    | None => Some (0, resolved, cm)
    end = Some (pt, resolved1, cm1) ->
    resolve_inv cm0 resolved1 cm1 /\ (exists f, parent_total f cm0 vt = Some pt) /\
    (forall k, is_Some (resolved !! k) -> is_Some (resolved1 !! k))).
  { intros pt resolved1 cm1 Hp; unfold parent_total.
    destruct (parent_truthy _) as [p|].
    - destruct (IH _ _ _ _ _ _ Hinv Hp) as (Hi & Hc & Hmono & _); auto.
    - injection Hp as <- <- <-; split; [exact Hinv|]; split; [exists O; reflexivity|auto]. }
  destruct (match parent_truthy _ with Some p => _ | None => _ end)
    as [[[pt resolved1] cm1]|] eqn:Hp; [|discriminate].
  injection Hr as <- <- <-.
  destruct (Hpar _ _ _ eq_refl) as ((H1 & H2 & H3 & H4) & [fp Hfp] & Hmono).
  assert (Hpt0 : parent_total fp cm0 vt0 = Some pt).
  { rewrite <- Hfp; apply parent_total_same_shape; [intros k; reflexivity|exact Hsh]. }
  split; [split; [|split; [|split]]|split; [|split]].
  - eapply same_shape_trans; [exact H1|apply set_base_shape].
  - rewrite set_base_keys; exact H2.
  - intros k t'; destruct (String.eqb_spec k name) as [->|Hne].
    + rewrite lookup_insert_eq; intros [= <-].
      exists (S fp); rewrite (chain_total_parent _ _ _ _ Hg0), Hpt0.
      unfold shape in Hsh; injection Hsh as _ ->; reflexivity.
    + rewrite lookup_insert_ne by congruence; apply H3.
  - intros k vt'; rewrite dict_get_set_base.
    destruct (String.eqb_spec k name) as [->|Hne].
    + destruct (dict_get cm1 name) as [vt1|] eqn:Hg1; [|discriminate].
      intros [= <-] _; exists fp; simpl.
      rewrite <- Hfp; apply parent_total_same_shape; [intros k; reflexivity|].
      assert (E : option_map shape (dict_get cm1 name) = option_map shape (dict_get cm name)).
      { rewrite <- H1; apply (proj1 Hinv name). }
      rewrite Hg1, Hg in E; injection E as E; unfold shape in *; simpl; congruence.
    + rewrite lookup_insert_ne by congruence; apply H4.
  - exists (S fp); rewrite (chain_total_parent _ _ _ _ Hg0), Hpt0.
    unfold shape in Hsh; injection Hsh as _ ->; reflexivity.
  - intros k Hk; destruct (String.eqb_spec k name) as [->|Hne].
    + rewrite lookup_insert_eq; eauto.
    + rewrite lookup_insert_ne by congruence; apply Hmono, Hk.
  - intros _; rewrite lookup_insert_eq; eauto.
Qed.

Lemma resolve_all_sound (fuel : nat) (names : list string) (resolved : gmap string Z)
    (cm out : ClassMap) :
  resolve_inv cm0 resolved cm ->
  resolve_all fuel names resolved cm = Some out ->
  exists resolved', resolve_inv cm0 resolved' out /\
    (forall k, is_Some (resolved !! k) -> is_Some (resolved' !! k)) /\
    (forall k, In k names -> dict_get cm0 k <> None -> is_Some (resolved' !! k)).
Proof.
  revert resolved cm; induction names as [|n rest IH]; intros resolved cm Hinv Hr; simpl in Hr.
  - injection Hr as <-; exists resolved; split; [exact Hinv|]; split; [auto|].
    intros k [].
  - destruct (resolve fuel n resolved cm) as [[[t resolved1] cm1]|] eqn:E; [|discriminate].
    destruct (resolve_sound _ _ _ _ _ _ _ Hinv E) as (Hi & _ & Hmono & Hn).
    destruct (IH _ _ Hi Hr) as (resolved' & Hi' & Hmono' & Hall).
    exists resolved'; split; [exact Hi'|]; split; [auto|].
    intros k [<-|Hk] Hk0; auto.
Qed.

Lemma resolve_complete (fuel : nat) (name : string) (resolved : gmap string Z)
    (cm : ClassMap) (t : Z) :
  resolve_inv cm0 resolved cm -> chain_total fuel cm0 name = Some t ->
  exists resolved' cm', resolve fuel name resolved cm = Some (t, resolved', cm').
Proof.
  revert name resolved cm t.
  induction fuel as [|fuel IH]; intros name resolved cm t Hinv Hc; [discriminate|].
  simpl resolve.
  destruct (resolved !! name) as [t0|] eqn:Hm.
  { destruct Hinv as (_ & _ & H3 & _); destruct (H3 _ _ Hm) as [f Hf].
    rewrite (chain_total_det _ _ _ _ _ _ Hf Hc); eauto. }
  assert (Hs := proj1 Hinv name).
  destruct (dict_get cm0 name) as [vt0|] eqn:Hg0, (dict_get cm name) as [vt|] eqn:Hg;
    try discriminate.
  2:{ simpl in Hc; rewrite Hg0 in Hc; injection Hc as <-; eauto. }
  rewrite (chain_total_parent _ _ _ _ Hg0) in Hc.
  simpl in Hs; injection Hs as Hp Ho.
  unfold parent_total in Hc; rewrite Hp, Ho in Hc.
  destruct (parent_truthy (cv_parent_name vt)) as [p|].
  - destruct (chain_total fuel cm0 p) as [pt|] eqn:Ep; [|discriminate].
    injection Hc as <-.
    destruct (IH _ _ _ _ Hinv Ep) as (resolved1 & cm1 & ->); eauto.
  - injection Hc as <-; eauto.
Qed.

Lemma resolve_all_complete (fuel : nat) (names : list string) (resolved : gmap string Z)
    (cm : ClassMap) :
  resolve_inv cm0 resolved cm ->
  (forall k, In k names -> chain_total fuel cm0 k <> None) ->
  exists out, resolve_all fuel names resolved cm = Some out.
Proof.
  revert resolved cm; induction names as [|n rest IH]; intros resolved cm Hinv Hall;
    simpl; [eauto|].
  destruct (chain_total fuel cm0 n) as [t|] eqn:Hc; [|exfalso; exact (Hall n (or_introl eq_refl) Hc)].
  destruct (resolve_complete _ _ _ _ _ Hinv Hc) as (resolved1 & cm1 & E); rewrite E.
  destruct (resolve_sound _ _ _ _ _ _ _ Hinv E) as (Hi & _).
  apply IH; [exact Hi|]; intros k Hk; apply Hall; right; exact Hk.
Qed.
End ResolveSound.

(** What [_assign_base_indices] computes: same keys, same parents and own
    functions, and every [base_index] the total of the class's parent. *)
Lemma assign_base_indices_spec (fuel : nat) (cm out : ClassMap) :
  _assign_base_indices fuel cm = Some out ->
  map fst out = map fst cm /\ same_shape cm out /\
  forall k vt, dict_get out k = Some vt ->
    exists f, parent_total f cm vt = Some (cv_base_index vt).
Proof.
  unfold _assign_base_indices; intros H.
  destruct (resolve_all_sound cm _ _ _ _ _ (resolve_inv_init cm) H)
    as (res & (H1 & H2 & H3 & H4) & _ & Hall).
  split; [exact H2|]; split; [exact H1|].
  intros k vt Hk; apply (H4 k vt Hk).
  assert (Hin : dict_get cm k <> None).
  { specialize (H1 k); rewrite Hk in H1; destruct (dict_get cm k); done. }
  apply Hall; [|exact Hin].
  apply dict_get_in_keys, Hin.
Qed.

(** [_assign_base_indices] finishes exactly when every class's chain does. *)
Lemma assign_base_indices_terminates (fuel : nat) (cm : ClassMap) :
  (forall k, In k (map fst cm) -> chain_total fuel cm k <> None) ->
  exists out, _assign_base_indices fuel cm = Some out.
Proof.
  intros H; apply (resolve_all_complete cm); [apply resolve_inv_init|exact H].
Qed.

Lemma assign_base_indices_chains (fuel : nat) (cm out : ClassMap) :
  _assign_base_indices fuel cm = Some out ->
  forall k, In k (map fst cm) -> exists f, chain_total f cm k <> None.
Proof.
  intros H k Hk.
  destruct (assign_base_indices_spec _ _ _ H) as (_ & Hs & Hb).
  apply dict_get_in_keys in Hk.
  destruct (dict_get cm k) as [vt0|] eqn:Hg0; [|congruence].
  assert (Hs' := Hs k); rewrite Hg0 in Hs'.
  destruct (dict_get out k) as [vt|] eqn:Hg; [|discriminate].
  destruct (Hb _ _ Hg) as [f Hf].
  exists (S f); rewrite (chain_total_parent _ _ _ _ Hg0).
  rewrite (parent_total_same_shape f cm cm vt0 vt) by
    first [intros ?; reflexivity | simpl in Hs'; congruence].
  rewrite Hf; discriminate.
Qed.

(* ------------------------------------------------------------------ *)
(** ** Resolver: parent and child *)

(** C1 *)
(** Claim C1: after resolution, for a class [C] and its configured parent
    [P] both in the class map, [base_index(C) = base_index(P) + own_width(P)]
    and the emitted [total_slots(C) = total_slots(P) + own_width(C)], where
    [own_width] sums the slot widths of the class's own functions.  Parent
    names are class names, hence non-empty (the source's truthiness test
    reads an empty name as "no parent"); the resolution is assumed to have
    finished, which it does unless the parent links form a cycle. *)
Theorem parent_child_slot_relation (fuel : nat) (cm out : ClassMap) (C P : string)
    (vc vp : ClassVTable) :
  _assign_base_indices fuel cm = Some out ->
  dict_get out C = Some vc -> cv_parent_name vc = Some P -> P <> ""%string ->
  dict_get out P = Some vp ->
  cv_base_index vc = cv_base_index vp + own_slots (cv_own_functions vp) /\
  out_total_slots (format_class vc) =
    out_total_slots (format_class vp) + own_slots (cv_own_functions vc).
Proof.
  intros Ha Hc Hpar Hne Hp.
  destruct (assign_base_indices_spec _ _ _ Ha) as (_ & Hs & Hb).
  destruct (Hb _ _ Hc) as [fc Hfc]; destruct (Hb _ _ Hp) as [fp Hfp].
  unfold parent_total in Hfc; rewrite Hpar in Hfc; simpl in Hfc.
  destruct (String.eqb_spec P "") as [->|_]; [congruence|].
  assert (HsP := Hs P); rewrite Hp in HsP.
  destruct (dict_get cm P) as [vp0|] eqn:Hg0; [|discriminate].
  simpl in HsP; injection HsP as Hpp Hop.
  assert (Hch : chain_total (S fp) cm P =
                Some (cv_base_index vp + own_slots (cv_own_functions vp))).
  { rewrite (chain_total_parent _ _ _ _ Hg0).
    rewrite (parent_total_same_shape fp cm cm vp0 vp);
      [|intros ?; reflexivity|unfold shape; congruence].
    rewrite Hfp, Hop; reflexivity. }
  assert (Eb := chain_total_det _ _ _ _ _ _ Hfc Hch).
  rewrite !format_class_total; split; lia.
Qed.

Lemma parent_child_slot_relation_witness :
  _assign_base_indices 5 ex_cm = Some ex_cm_resolved /\
  cv_base_index (mkCV "Child" (Some "Root") [mkVF "Tick" false 3] 3) =
    cv_base_index (mkCV "Root" None [mkVF "~Root" true 2; mkVF "Init" false 3] 0)
    + own_slots (cv_own_functions (mkCV "Root" None [mkVF "~Root" true 2; mkVF "Init" false 3] 0)) /\
  out_total_slots (format_class (mkCV "Child" (Some "Root") [mkVF "Tick" false 3] 3)) =
    out_total_slots (format_class (mkCV "Root" None [mkVF "~Root" true 2; mkVF "Init" false 3] 0))
    + own_slots (cv_own_functions (mkCV "Child" (Some "Root") [mkVF "Tick" false 3] 3)).
Proof.
  assert (Ha : _assign_base_indices 5 ex_cm = Some ex_cm_resolved) by (vm_compute; reflexivity).
  split; [exact Ha|].
  apply (parent_child_slot_relation 5 ex_cm ex_cm_resolved "Child" "Root"); 
    [exact Ha|reflexivity|reflexivity|discriminate|reflexivity].
Defined.

(* ------------------------------------------------------------------ *)
(** ** Resolver: order independence *)

Lemma dict_get_perm {V : Type} (l l' : list (string * V)) :
  NoDup (map fst l) -> Permutation l l' -> forall k, dict_get l k = dict_get l' k.
Proof.
  intros Hnd Hp; induction Hp as [|[k0 v] l l' Hp IH|[k1 v1] [k2 v2] l|l l' l'' H1 IH1 H2 IH2];
    intros k; simpl in *.
  - reflexivity.
  - inversion Hnd; subst; rewrite IH; auto.
  - inversion Hnd as [|? ? Hn1 Hnd']; subst; simpl in Hn1.
    destruct (String.eqb_spec k k2) as [E2|N2], (String.eqb_spec k k1) as [E1|N1];
      try reflexivity.
    exfalso; apply Hn1; rewrite <- E2, E1; constructor.
  - rewrite IH1 by exact Hnd; apply IH2.
    assert (Hm := Permutation_map fst H1); rewrite <- Hm; exact Hnd.
Qed.

Lemma chains_uniform_fuel (cm : ClassMap) (ks : list string) :
  (forall k, In k ks -> exists f, chain_total f cm k <> None) ->
  exists F, forall k, In k ks -> chain_total F cm k <> None.
Proof.
  induction ks as [|k ks IH]; intros H; [exists O; intros ? []|].
  destruct (H k (or_introl eq_refl)) as [f1 Hf1].
  destruct IH as [F HF]; [intros k' Hk'; apply H; right; exact Hk'|].
  exists (f1 + F)%nat; intros k' [<-|Hk'].
  - destruct (chain_total f1 cm k) as [z|] eqn:E; [|congruence].
    rewrite (chain_total_mono f1 (f1 + F) cm k z ltac:(lia) E); discriminate.
  - specialize (HF k' Hk'); destruct (chain_total F cm k') as [z|] eqn:E; [|congruence].
    rewrite (chain_total_mono F (f1 + F) cm k' z ltac:(lia) E); discriminate.
Qed.

(** Two finished resolutions of class maps with the same parents and own
    functions give every class the same [base_index]. *)
Lemma assign_same_shape_bases (f f' : nat) (cm cm' out out' : ClassMap) :
  same_shape cm cm' ->
  _assign_base_indices f cm = Some out -> _assign_base_indices f' cm' = Some out' ->
  forall k, option_map (fun vt => (shape vt, cv_base_index vt)) (dict_get out k) =
            option_map (fun vt => (shape vt, cv_base_index vt)) (dict_get out' k).
Proof.
  intros Hs Ha Ha' k.
  destruct (assign_base_indices_spec _ _ _ Ha) as (_ & Hs1 & Hb1).
  destruct (assign_base_indices_spec _ _ _ Ha') as (_ & Hs2 & Hb2).
  assert (E := Hs1 k); rewrite Hs in E; rewrite Hs2 in E.
  destruct (dict_get out k) as [vt|] eqn:G1, (dict_get out' k) as [vt'|] eqn:G2;
    try discriminate; [|reflexivity].
  assert (Esh : shape vt = shape vt') by (cbn [option_map] in E; congruence).
  destruct (Hb1 _ _ G1) as [g1 H1]; destruct (Hb2 _ _ G2) as [g2 H2].
  rewrite (parent_total_same_shape g2 cm' cm vt' vt) in H2;
    [|intros ?; symmetry; apply Hs|symmetry; exact Esh].
  cbn [option_map]; rewrite Esh, (parent_total_det _ _ _ _ _ _ H1 H2); reflexivity.
Qed.

(** C3 *)
(** Claim C3: resolution does not depend on the order of the class map.
    For a class map (its keys distinct, as in any dict) and any permutation
    of it, if resolution of one finishes then so does resolution of the
    other, and every class gets the same [base_index] and the same emitted
    [total_slots]. *)
Theorem resolution_order_independent (fuel : nat) (cm cm' out : ClassMap) :
  NoDup (map fst cm) -> Permutation cm cm' ->
  _assign_base_indices fuel cm = Some out ->
  exists fuel' out', _assign_base_indices fuel' cm' = Some out' /\
    forall k,
      option_map cv_base_index (dict_get out k) = option_map cv_base_index (dict_get out' k) /\
      option_map (fun vt => out_total_slots (format_class vt)) (dict_get out k) =
      option_map (fun vt => out_total_slots (format_class vt)) (dict_get out' k).
Proof.
  intros Hnd Hp Ha.
  assert (Hs : same_shape cm cm').
  { intros k; rewrite (dict_get_perm _ _ Hnd Hp); reflexivity. }
  destruct (chains_uniform_fuel cm (map fst cm) (assign_base_indices_chains _ _ _ Ha))
    as [F HF].
  destruct (assign_base_indices_terminates F cm') as [out' Ha'].
  { intros k Hk; rewrite <- (chain_total_same_shape F cm cm' k Hs); apply HF.
    eapply Permutation_in; [apply Permutation_map; symmetry; exact Hp|exact Hk]. }
  exists F, out'; split; [exact Ha'|]; intros k.
  assert (E := assign_same_shape_bases _ _ _ _ _ _ Hs Ha Ha' k).
  destruct (dict_get out k) as [vt|], (dict_get out' k) as [vt'|]; try discriminate;
    [|split; reflexivity].
  cbn [option_map] in *; unfold shape in E; injection E as _ Eo Eb.
  rewrite !format_class_total, Eb, Eo; split; reflexivity.
Qed.

Lemma resolution_order_independent_witness :
  NoDup (map fst ex_cm) /\ Permutation ex_cm (rev ex_cm) /\
  _assign_base_indices 5 ex_cm = Some ex_cm_resolved /\
  exists fuel' out', _assign_base_indices fuel' (rev ex_cm) = Some out' /\
    forall k,
      option_map cv_base_index (dict_get ex_cm_resolved k) =
        option_map cv_base_index (dict_get out' k) /\
      option_map (fun vt => out_total_slots (format_class vt)) (dict_get ex_cm_resolved k) =
      option_map (fun vt => out_total_slots (format_class vt)) (dict_get out' k).
Proof.
  assert (Hnd : NoDup (map fst ex_cm)) by (apply (bool_decide_unpack _); vm_compute; exact I).
  assert (Hp : Permutation ex_cm (rev ex_cm)) by (unfold ex_cm; simpl; apply perm_swap).
  assert (Ha : _assign_base_indices 5 ex_cm = Some ex_cm_resolved) by (vm_compute; reflexivity).
  split; [exact Hnd|]; split; [exact Hp|]; split; [exact Ha|].
  exact (resolution_order_independent 5 ex_cm (rev ex_cm) ex_cm_resolved Hnd Hp Ha).
Defined.

Lemma emitted_slot_widths_witness :
  In ("Root"%string, format_class (mkCV "Root" None [mkVF "~Root" true 2; mkVF "Init" false 3] 0))
     (db_classes (_format_output ex_cm_resolved "4.26")) /\
  out_functions (format_class (mkCV "Root" None [mkVF "~Root" true 2; mkVF "Init" false 3] 0))
    !! 0%nat = Some (0, "~Root"%string, true) /\
  ((forall a' n' d',
     out_functions (format_class (mkCV "Root" None [mkVF "~Root" true 2; mkVF "Init" false 3] 0))
       !! 1%nat = Some (a', n', d') -> a' = 0 + slot_width true) /\
   (out_functions (format_class (mkCV "Root" None [mkVF "~Root" true 2; mkVF "Init" false 3] 0))
      !! 1%nat = None ->
    out_total_slots (format_class (mkCV "Root" None [mkVF "~Root" true 2; mkVF "Init" false 3] 0))
      = 0 + slot_width true) /\
   slot_width true = (if true then 2 else 1)).
Proof.
  assert (Hin : In ("Root"%string,
                    format_class (mkCV "Root" None [mkVF "~Root" true 2; mkVF "Init" false 3] 0))
                  (db_classes (_format_output ex_cm_resolved "4.26")))
    by (simpl; right; left; reflexivity).
  assert (Hi : out_functions (format_class (mkCV "Root" None [mkVF "~Root" true 2;
                 mkVF "Init" false 3] 0)) !! 0%nat = Some (0, "~Root"%string, true))
    by reflexivity.
  split; [exact Hin|]; split; [exact Hi|].
  exact (emitted_slot_widths ex_cm_resolved "4.26" "Root" _ 0 0 "~Root" true Hin Hi).
Defined.

(* ------------------------------------------------------------------ *)
(** ** The Root / Mid / Leaf scenario *)

(** C2 *)
(** Claim C2: for Root (own [funcA], [funcB]), Mid : Root (own [funcC] and
    destructor [~Mid], plus an [override] of [funcA]) and Leaf : Mid (no own
    functions), scanning the headers yields exactly that registry, and the
    resolver and emitter give Root base 0 / total 2, Mid base 2 with rows
    [(2, funcC, false); (3, ~Mid, true)] / total 5, Leaf base 5 / total 5. *)
Theorem three_class_scenario :
  build_class_map ex_fs "/ue" ex_cfg [] [] = (ex_registry, []) /\
  option_map (fun cm => _format_output cm "4.26") (_assign_base_indices 10 ex_registry)
    = Some ex_db /\
  build_vtable_db_with 10 ex_fs ex_cfg "/ue" "4.26" = (Some ex_db, []).
Proof. split; [|split]; vm_compute; reflexivity. Qed.

(* ------------------------------------------------------------------ *)
(** ** Registry construction *)

Lemma dict_get_dict_set {V : Type} (m : list (string * V)) (k k' : string) (v : V) :
  dict_get (dict_set m k v) k' = if String.eqb k' k then Some v else dict_get m k'.
Proof.
  induction m as [|[k0 v0] r IH]; simpl; [destruct (String.eqb k' k); reflexivity|].
  destruct (String.eqb_spec k k0) as [->|Hne]; simpl.
  - destruct (String.eqb k' k0); reflexivity.
  - rewrite IH; destruct (String.eqb_spec k' k0) as [->|]; [|reflexivity].
    destruct (String.eqb_spec k0 k); [congruence|reflexivity].
Qed.

Lemma parents_of_dict_set (m : ClassMap) (k : string) (v : ClassVTable) :
  parents_of (dict_set m k v) = dict_set (parents_of m) k (cv_parent_name v).
Proof.
  induction m as [|[k0 v0] r IH]; simpl; [reflexivity|].
  destruct (String.eqb k k0); simpl; [reflexivity|]; rewrite IH; reflexivity.
Qed.

Lemma build_parents_indep (fs fs' : FileSystem) (root : string) (defs : list ClassDef)
    (m m' : ClassMap) (log log' : list string) :
  parents_of m = parents_of m' ->
  parents_of (fst (build_class_map fs root defs m log)) =
  parents_of (fst (build_class_map fs' root defs m' log')).
Proof.
  revert m m' log log'; induction defs as [|[[n p] r] rest IH]; intros m m' log log' H;
    simpl; [exact H|].
  destruct (parse_header (fs _) _ _) as [own diag];
    destruct (parse_header (fs' _) _ _) as [own' diag'].
  apply IH; rewrite !parents_of_dict_set, H; reflexivity.
Qed.

Lemma build_parent_configured (fs : FileSystem) (root : string) (defs : list ClassDef)
    (m : ClassMap) (log : list string) (k : string) (vt : ClassVTable) :
  dict_get (fst (build_class_map fs root defs m log)) k = Some vt ->
  dict_get m k = Some vt \/ exists rel, In (k, cv_parent_name vt, rel) defs.
Proof.
  revert m log; induction defs as [|[[n p] r] rest IH]; intros m log H; simpl in H; [auto|].
  destruct (parse_header (fs _) _ _) as [own diag].
  destruct (IH _ _ H) as [H1|[rel Hin]]; [|right; exists rel; right; exact Hin].
  rewrite dict_get_dict_set in H1.
  destruct (String.eqb_spec k n) as [->|]; [|left; exact H1].
  injection H1 as <-; right; exists r; left; reflexivity.
Qed.

(** C9 *)
(** Claim C9 (as amended): the parent recorded in the registry comes from
    the configuration only.  [parse_header] returns just the function slots,
    so the registry's parent links are the same whatever the headers contain,
    and each class's parent is the one of a configuration entry for it. *)
Theorem registry_parent_from_config (fs fs' : FileSystem) (root : string)
    (defs : list ClassDef) :
  parents_of (fst (build_class_map fs root defs [] [])) =
  parents_of (fst (build_class_map fs' root defs [] [])) /\
  forall k vt, dict_get (fst (build_class_map fs root defs [] [])) k = Some vt ->
    exists rel, In (k, cv_parent_name vt, rel) defs.
Proof.
  split; [apply build_parents_indep; reflexivity|].
  intros k vt H; destruct (build_parent_configured _ _ _ _ _ _ _ H) as [H1|H1];
    [discriminate|exact H1].
Qed.

(** The header of [Mid] says [class Mid : public Root], yet with a
    configuration giving [Mid] no parent the registry records none. *)
Lemma header_parent_not_captured :
  In "class Mid : public Root {"%string ex_mid_h /\
  option_map cv_parent_name (dict_get (fst (build_class_map ex_fs "/ue" ex_cfg_mid_only [] [])) "Mid")
    = Some None /\
  option_map cv_parent_name (dict_get (fst (build_class_map ex_fs "/ue" ex_cfg_mid_only [] [])) "Mid")
    <> Some (Some "Root"%string).
Proof.
  split; [left; reflexivity|]; split; vm_compute; [reflexivity|discriminate].
Qed.

(* ------------------------------------------------------------------ *)
(** ** A missing header *)

Lemma dict_get_set_own (cm : ClassMap) (k k' : string) (fs : list VirtualFunction) :
  dict_get (set_own cm k fs) k' =
  if String.eqb k' k
  then option_map (fun v => mkCV (cv_class_name v) (cv_parent_name v) fs (cv_base_index v))
                  (dict_get cm k')
  else dict_get cm k'.
Proof.
  induction cm as [|[k0 v] r IH]; simpl; [destruct (String.eqb k' k); reflexivity|].
  destruct (String.eqb_spec k k0) as [->|Hne]; simpl.
  - destruct (String.eqb_spec k' k0); reflexivity.
  - rewrite IH.
    destruct (String.eqb_spec k' k0) as [->|Hne']; [|reflexivity].
    destruct (String.eqb_spec k0 k); [congruence|reflexivity].
Qed.

Lemma set_own_keys (cm : ClassMap) (k : string) (fs : list VirtualFunction) :
  map fst (set_own cm k fs) = map fst cm.
Proof.
  induction cm as [|[k0 v] r IH]; simpl; [reflexivity|].
  destruct (String.eqb k k0); simpl; [reflexivity|]; rewrite IH; reflexivity.
Qed.

Lemma set_own_dict_set_ne (m : ClassMap) (c n : string) (v : ClassVTable) :
  n <> c -> set_own (dict_set m n v) c [] = dict_set (set_own m c []) n v.
Proof.
  intros Hne; induction m as [|[k0 v0] r IH]; simpl;
    repeat match goal with |- context [String.eqb ?a ?b] => destruct (String.eqb_spec a b) end;
    simpl;
    repeat match goal with |- context [String.eqb ?a ?b] => destruct (String.eqb_spec a b) end;
    subst; congruence.
Qed.

Lemma set_own_dict_set_eq (m : ClassMap) (c : string) (v : ClassVTable) :
  set_own (dict_set m c v) c [] =
  dict_set (set_own m c []) c (mkCV (cv_class_name v) (cv_parent_name v) [] (cv_base_index v)).
Proof.
  induction m as [|[k0 v0] r IH]; simpl.
  - rewrite String.eqb_refl; reflexivity.
  - destruct (String.eqb_spec c k0) as [->|Hc]; simpl.
    + rewrite String.eqb_refl; reflexivity.
    + destruct (String.eqb_spec c k0); [congruence|]; rewrite IH; reflexivity.
Qed.

(** Scanning with the header of [c] removed gives the same class map, except
    that [c] has no own functions. *)
Lemma build_remove_header (fs : FileSystem) (root : string) (defs : list ClassDef)
    (c rel : string) (m : ClassMap) (log log' : list string) :
  (forall n p r, In (n, p, r) defs -> (n = c <-> path_join root r = path_join root rel)) ->
  fst (build_class_map (remove_file fs (path_join root rel)) root defs (set_own m c []) log') =
  set_own (fst (build_class_map fs root defs m log)) c [].
Proof.
  revert m log log'; induction defs as [|[[n p] r] rest IH]; intros m log log' Hpath;
    simpl; [reflexivity|].
  assert (Hn := Hpath n p r (or_introl eq_refl)).
  assert (Hrest : forall n p r, In (n, p, r) rest ->
                  (n = c <-> path_join root r = path_join root rel))
    by (intros n' p' r' Hin; exact (Hpath n' p' r' (or_intror Hin))).
  unfold remove_file at 1.
  destruct (String.eqb_spec (path_join root r) (path_join root rel)) as [Hq|Hq].
  - apply Hn in Hq as ->.
    destruct (parse_header (fs _) _ _) as [own diag]; simpl.
    replace (dict_set (set_own m c []) c (mkCV c p [] 0))
      with (set_own (dict_set m c (mkCV c p own 0)) c [])
      by (rewrite set_own_dict_set_eq; reflexivity).
    apply IH, Hrest.
  - assert (Hnc : n <> c) by (intros E; apply Hq, Hn, E).
    destruct (parse_header (fs _) _ _) as [own diag]; simpl.
    rewrite <- set_own_dict_set_ne by exact Hnc.
    apply IH, Hrest.
Qed.

Lemma build_log_keeps (fs : FileSystem) (root : string) (defs : list ClassDef)
    (m : ClassMap) (log : list string) (s : string) :
  In s log -> In s (snd (build_class_map fs root defs m log)).
Proof.
  revert m log; induction defs as [|[[n p] r] rest IH]; intros m log H; simpl; [exact H|].
  destruct (parse_header _ _ _); apply IH, in_or_app; left; exact H.
Qed.

Lemma build_log_missing (fs : FileSystem) (root : string) (defs : list ClassDef)
    (m : ClassMap) (log : list string) (n : string) (p : option string) (r : string) :
  In (n, p, r) defs -> fs (path_join root r) = None ->
  In (warning_for (path_join root r)) (snd (build_class_map fs root defs m log)).
Proof.
  revert m log; induction defs as [|[[n' p'] r'] rest IH]; intros m log Hin Hfs;
    [destruct Hin|].
  destruct Hin as [E|Hin]; simpl.
  - injection E as -> -> ->; rewrite Hfs; simpl.
    apply build_log_keeps, in_or_app; right; left; reflexivity.
  - destruct (parse_header _ _ _); apply IH; assumption.
Qed.

Lemma build_keys (fs : FileSystem) (root : string) (defs : list ClassDef)
    (m : ClassMap) (log : list string) (n : string) :
  In n (map fst m) \/ In n (config_names defs) ->
  In n (map fst (fst (build_class_map fs root defs m log))).
Proof.
  revert m log; induction defs as [|[[n' p'] r'] rest IH]; intros m log H; simpl in *.
  - destruct H as [H|[]]; exact H.
  - destruct (parse_header _ _ _); apply IH.
    assert (Hk : forall k v, In k (map fst m) \/ k = n' -> In k (map fst (dict_set m n' v))).
    { clear; intros k v; induction m as [|[k0 v0] r IHm]; simpl.
      - intros [[] | ->]; left; reflexivity.
      - intros H; destruct (String.eqb_spec n' k0) as [E|E]; simpl;
          destruct H as [[->|H] | ->];
          solve [auto | left; congruence | right; apply IHm; auto]. }
    destruct H as [H|[-> | H]]; [left; apply Hk; auto|left; apply Hk; auto|right; exact H].
Qed.

Lemma chain_total_set_own_avoid (f : nat) (cm : ClassMap) (c d : string)
    (fs : list VirtualFunction) :
  ~ descends cm c d -> chain_total f (set_own cm c fs) d = chain_total f cm d.
Proof.
  revert d; induction f as [|f IH]; intros d Hd; [reflexivity|]; simpl.
  rewrite dict_get_set_own.
  destruct (String.eqb_spec d c) as [->|Hne]; [exfalso; apply Hd; constructor|].
  destruct (dict_get cm d) as [vt|] eqn:G; [|reflexivity].
  destruct (parent_truthy (cv_parent_name vt)) as [p|] eqn:P; [|reflexivity].
  rewrite IH; [reflexivity|].
  intros Hp; apply Hd; exact (desc_parent cm c d vt p G P Hp).
Qed.

Lemma chain_total_set_own_some (f : nat) (cm : ClassMap) (c d : string)
    (fs : list VirtualFunction) :
  chain_total f cm d <> None -> chain_total f (set_own cm c fs) d <> None.
Proof.
  revert d; induction f as [|f IH]; intros d Hd; [exact Hd|]; simpl in *.
  rewrite dict_get_set_own.
  destruct (String.eqb d c); destruct (dict_get cm d) as [vt|]; simpl; try discriminate;
    destruct (parent_truthy (cv_parent_name vt)) as [p|]; try discriminate;
    destruct (chain_total f cm p) eqn:E; try (simpl in Hd; congruence);
    destruct (chain_total f (set_own cm c fs) p) eqn:E'; try discriminate;
    exfalso; apply (IH p); congruence.
Qed.

(** C7 *)
(** Claim C7 (as amended): when the header of a configured class [c] is
    missing (its path used by [c] alone), [parse_header] returns no functions
    and a warning, which is logged; the class map is the one scanned with the
    header present except that [c] has no own functions; every configured
    class has an entry.  If resolution finishes with the header present it
    also finishes without it, and every class that does not descend from [c]
    gets the same [base_index] and [total_slots]; descendants of [c] are
    computed with [c] contributing no own slots.  Whenever resolution
    finishes, the artifact has an entry for every configured class. *)
Theorem missing_header_isolated (fs : FileSystem) (root version : string)
    (defs : list ClassDef) (c : string) (pc : option string) (rel : string) :
  In (c, pc, rel) defs ->
  (forall n p r, In (n, p, r) defs -> (n = c <-> path_join root r = path_join root rel)) ->
  let fs' := remove_file fs (path_join root rel) in
  let cm := fst (build_class_map fs root defs [] []) in
  let cm' := fst (build_class_map fs' root defs [] []) in
  parse_header (fs' (path_join root rel)) (path_join root rel) c =
    ([], [warning_for (path_join root rel)]) /\
  In (warning_for (path_join root rel)) (snd (build_class_map fs' root defs [] [])) /\
  cm' = set_own cm c [] /\
  (exists vt, dict_get cm' c = Some vt /\ cv_own_functions vt = []) /\
  (forall n, In n (config_names defs) -> In n (map fst cm')) /\
  (forall fuel out, _assign_base_indices fuel cm = Some out ->
     exists fuel' out', _assign_base_indices fuel' cm' = Some out' /\
       forall d, ~ descends cm c d ->
         option_map cv_base_index (dict_get out d) = option_map cv_base_index (dict_get out' d) /\
         option_map (fun vt => out_total_slots (format_class vt)) (dict_get out d) =
         option_map (fun vt => out_total_slots (format_class vt)) (dict_get out' d)) /\
  (forall fuel out', _assign_base_indices fuel cm' = Some out' ->
     forall n, In n (config_names defs) ->
       exists co, In (n, co) (db_classes (_format_output out' version))).
Proof.
  intros Hin Hpath fs' cm cm'.
  assert (Hfs' : fs' (path_join root rel) = None)
    by (unfold fs', remove_file; rewrite String.eqb_refl; reflexivity).
  assert (Hcm' : cm' = set_own cm c [])
    by exact (build_remove_header fs root defs c rel [] [] [] Hpath).
  assert (Hkeys : forall n, In n (config_names defs) -> In n (map fst cm'))
    by (intros n Hn; apply build_keys; right; exact Hn).
  split; [rewrite Hfs'; reflexivity|].
  split; [exact (build_log_missing fs' root defs [] [] c pc rel Hin Hfs')|].
  split; [exact Hcm'|].
  split.
  { assert (Hc : In c (map fst cm')).
    { apply Hkeys; unfold config_names; apply in_map_iff; exists (c, pc, rel); auto. }
    apply dict_get_in_keys in Hc.
    destruct (dict_get cm' c) as [vt|] eqn:G; [|congruence].
    exists vt; split; [reflexivity|].
    rewrite Hcm', dict_get_set_own, String.eqb_refl in G.
    destruct (dict_get cm c); [|discriminate]; injection G as <-; reflexivity. }
  split; [exact Hkeys|].
  split.
  - intros fuel out Ha.
    destruct (chains_uniform_fuel cm (map fst cm) (assign_base_indices_chains _ _ _ Ha))
      as [F HF].
    destruct (assign_base_indices_terminates F cm') as [out' Ha'].
    { intros k Hk; rewrite Hcm' in Hk |- *; rewrite set_own_keys in Hk.
      apply chain_total_set_own_some, HF, Hk. }
    exists F, out'; split; [exact Ha'|]; intros d Hd.
    destruct (assign_base_indices_spec _ _ _ Ha) as (_ & Hs1 & Hb1).
    destruct (assign_base_indices_spec _ _ _ Ha') as (_ & Hs2 & Hb2).
    assert (Hne : d <> c) by (intros ->; apply Hd; constructor).
    assert (E1 := Hs1 d); assert (E2 := Hs2 d).
    rewrite Hcm', dict_get_set_own in E2.
    destruct (String.eqb_spec d c) as [|_]; [congruence|].
    destruct (dict_get cm d) as [vt0|] eqn:G0;
      destruct (dict_get out d) as [vt|] eqn:G1; try discriminate;
      destruct (dict_get out' d) as [vt'|] eqn:G2; try discriminate;
      [|split; reflexivity].
    cbn [option_map] in E1, E2; unfold shape in E1, E2.
    injection E1 as Ep1 Eo1; injection E2 as Ep2 Eo2.
    destruct (Hb1 _ _ G1) as [g1 H1]; destruct (Hb2 _ _ G2) as [g2 H2].
    assert (Hpt : parent_total g2 cm' vt' = parent_total g2 cm vt0).
    { rewrite Hcm'; unfold parent_total; rewrite <- Ep2.
      destruct (parent_truthy (cv_parent_name vt0)) as [p|] eqn:P; [|reflexivity].
      apply chain_total_set_own_avoid.
      intros Hp; apply Hd; exact (desc_parent cm c d vt0 p G0 P Hp). }
    rewrite Hpt in H2.
    rewrite (parent_total_same_shape g1 cm cm vt vt0) in H1;
      [|intros ?; reflexivity|unfold shape; congruence].
    assert (Eb := parent_total_det _ _ _ _ _ _ H1 H2).
    cbn [option_map]; rewrite !format_class_total, Eb.
    split; [reflexivity|]; congruence.
  - intros fuel out' Ha' n Hn.
    destruct (assign_base_indices_spec _ _ _ Ha') as (Hk & _).
    assert (Hn' : In n (map fst out')) by (rewrite Hk; apply Hkeys, Hn).
    apply in_map_iff in Hn' as [[k vt] [Ek Hkv]]; simpl in Ek; subst k.
    exists (format_class vt); simpl; apply in_map_iff; exists (n, vt); auto.
Qed.

Lemma missing_header_isolated_witness :
  In ("Root", None, "Root.h")%string ex_cfg /\
  (forall n p r, In (n, p, r) ex_cfg ->
     (n = "Root"%string <-> path_join "/ue" r = path_join "/ue" "Root.h")) /\
  fst (build_class_map (remove_file ex_fs (path_join "/ue" "Root.h")) "/ue" ex_cfg [] []) =
  set_own (fst (build_class_map ex_fs "/ue" ex_cfg [] [])) "Root" [].
Proof.
  assert (H1 : In ("Root", None, "Root.h")%string ex_cfg) by (left; reflexivity).
  assert (H2 : forall n p r, In (n, p, r) ex_cfg ->
     (n = "Root"%string <-> path_join "/ue" r = path_join "/ue" "Root.h")).
  { intros n p r H; simpl in H.
    destruct H as [E|[E|[E|[]]]]; injection E as <- <- <-; vm_compute;
      split; intros E; solve [reflexivity | discriminate]. }
  split; [exact H1|]; split; [exact H2|].
  exact (proj1 (proj2 (proj2 (missing_header_isolated ex_fs "/ue" "4.26" ex_cfg
           "Root" None "Root.h" H1 H2)))).
Defined.

(** Counterexample to C7 as stated: with [Root.h] missing, the descendants
    [Mid] and [Leaf] of [Root] are not resolved identically: [Mid]'s
    [base_index] drops from 2 to 0 and [Leaf]'s [total_slots] from 5 to 3. *)
Lemma missing_header_shifts_descendants :
  option_map (fun db => option_map out_base_index (db_entry db "Mid"))
    (fst (build_vtable_db_with 10 ex_fs ex_cfg "/ue" "4.26")) = Some (Some 2) /\
  option_map (fun db => option_map out_base_index (db_entry db "Mid"))
    (fst (build_vtable_db_with 10 ex_fs_no_root ex_cfg "/ue" "4.26")) = Some (Some 0) /\
  option_map (fun db => option_map out_total_slots (db_entry db "Leaf"))
    (fst (build_vtable_db_with 10 ex_fs ex_cfg "/ue" "4.26")) = Some (Some 5) /\
  option_map (fun db => option_map out_total_slots (db_entry db "Leaf"))
    (fst (build_vtable_db_with 10 ex_fs_no_root ex_cfg "/ue" "4.26")) = Some (Some 3).
Proof. vm_compute; repeat split. Qed.

(* ------------------------------------------------------------------ *)
(** ** The name extractor *)

Lemma first_some_in {A B : Type} (xs : list A) (f : A -> option B) (y : B) :
  first_some xs f = Some y -> exists x, In x xs /\ f x = Some y.
Proof.
  induction xs as [|x r IH]; simpl; [discriminate|].
  destruct (f x) eqn:E; intros H.
  - injection H as <-; exists x; auto.
  - destruct (IH H) as (x' & Hin & Hx); exists x'; auto.
Qed.

Lemma positions_in (b a : list ascii) (z : pos) :
  In z (positions b a) -> rev (pbefore z) ++ pafter z = rev b ++ a.
Proof.
  revert b; induction a as [|x r IH]; intros b; simpl.
  - intros [<-|[]]; reflexivity.
  - intros [<-|H]; [reflexivity|].
    rewrite (IH _ H); simpl; rewrite <- app_assoc; reflexivity.
Qed.

Lemma advance_pafter (z : pos) (n : nat) :
  pafter z = firstn n (pafter z) ++ pafter (advance z n).
Proof. simpl; symmetry; apply firstn_skipn. Qed.

Lemma take_while_firstn (c : ascii -> bool) (l : list ascii) (i : nat) :
  (i <= length (take_while c l))%nat ->
  forallb c (firstn i l) = true /\ length (firstn i l) = i.
Proof.
  revert i; induction l as [|x r IH]; intros i Hi; simpl in *.
  - assert (i = 0%nat) by lia; subst; auto.
  - destruct i as [|i]; [auto|]; simpl.
    destruct (c x); simpl in Hi; [|lia].
    destruct (IH i ltac:(lia)) as [H1 H2]; rewrite H1, H2; auto.
Qed.

Lemma is_prefix_app (s l : list ascii) :
  is_prefix s l = true -> l = s ++ skipn (length s) l.
Proof.
  revert l; induction s as [|a s IH]; intros l H; [reflexivity|].
  destruct l as [|b l]; simpl in H; [discriminate|].
  apply andb_prop in H as [Hab H]; unfold achar_eqb in Hab.
  apply Ascii.eqb_eq in Hab; subst; simpl; f_equal; apply IH, H.
Qed.

Lemma mt_lit_inv {R : Type} (s : list ascii) (z : pos) (cs : caps)
    (k : pos -> caps -> option R) (x : R) :
  mt (RLit s) z cs k = Some x ->
  pafter z = s ++ pafter (advance z (length s)) /\ k (advance z (length s)) cs = Some x.
Proof.
  simpl; destruct (is_prefix s (pafter z)) eqn:P; [|discriminate].
  intros H; split; [apply is_prefix_app, P | exact H].
Qed.

Lemma mt_cls_inv {R : Type} (c : ascii -> bool) (mn : nat) (g : bool) (z : pos)
    (cs : caps) (k : pos -> caps -> option R) (x : R) :
  mt (RCls c mn g) z cs k = Some x ->
  exists i, (mn <= i)%nat /\ forallb c (firstn i (pafter z)) = true /\
    length (firstn i (pafter z)) = i /\
    pafter z = firstn i (pafter z) ++ pafter (advance z i) /\
    k (advance z i) cs = Some x.
Proof.
  simpl; intros H.
  apply first_some_in in H as (i & Hin & Hk).
  assert (Hr : In i (seq mn (S (length (take_while c (pafter z))) - mn))).
  { destruct g; [apply in_rev; exact Hin | exact Hin]. }
  apply in_seq in Hr.
  destruct (take_while_firstn c (pafter z) i ltac:(lia)) as [H1 H2].
  exists i; repeat split; try assumption; [lia|apply advance_pafter].
Qed.

Lemma mt_seq_eq {R : Type} (a b : rx) (z : pos) (cs : caps) (k : pos -> caps -> option R) :
  mt (RSeq a b) z cs k = mt a z cs (fun z' cs' => mt b z' cs' k).
Proof. reflexivity. Qed.

Lemma mt_grp_eq {R : Type} (a : rx) (z : pos) (cs : caps) (k : pos -> caps -> option R) :
  mt (RGrp a) z cs k =
  mt a z cs (fun z' cs' =>
    k z' (cs' ++ [firstn (length (pafter z) - length (pafter z')) (pafter z)])).
Proof. reflexivity. Qed.

Lemma forallb_not_paren (f : ascii -> bool) (l : list ascii) :
  (forall c, f c = true -> c <> "("%char) -> forallb f l = true -> ~ In "("%char l.
Proof.
  intros Hf Hl Hin; apply forallb_forall with (x := "("%char) in Hl; [|exact Hin].
  exact (Hf _ Hl eq_refl).
Qed.

(** A match of [_RE_FUNC_NAME]: the text [virtual], a run [mid] of type
    tokens between whitespace with no parenthesis, the captured word, optional
    whitespace and an opening parenthesis. *)
Lemma func_name_match (decl g : list ascii) :
  group1 (re_search _RE_FUNC_NAME decl) = Some g ->
  g <> [] /\ forallb is_word g = true /\
  exists pre mid sp post,
    decl = pre ++ chars "virtual" ++ mid ++ g ++ sp ++ "("%char :: post /\
    ~ In "("%char mid /\ forallb is_space sp = true /\
    exists mid' c, is_space c = true /\ mid = mid' ++ [c].
Proof.
  unfold group1, re_search.
  destruct (first_some (positions [] decl) (run_at _RE_FUNC_NAME)) as [cs|] eqn:E;
    [|discriminate].
  apply first_some_in in E as (z0 & Hz0 & Hrun).
  apply positions_in in Hz0; simpl in Hz0.
  unfold run_at, _RE_FUNC_NAME in Hrun; cbn [rseq] in Hrun.
  rewrite mt_seq_eq in Hrun; apply mt_lit_inv in Hrun as [P0 Hrun].
  remember (advance z0 _) as z1 eqn:Ez1.
  rewrite mt_seq_eq in Hrun; apply mt_cls_inv in Hrun as (i1 & L1 & F1 & N1 & P1 & Hrun).
  remember (advance z1 i1) as z2 eqn:Ez2.
  rewrite mt_seq_eq in Hrun; apply mt_cls_inv in Hrun as (i2 & L2 & F2 & N2 & P2 & Hrun).
  remember (advance z2 i2) as z3 eqn:Ez3.
  rewrite mt_seq_eq in Hrun; apply mt_cls_inv in Hrun as (i3 & L3 & F3 & N3 & P3 & Hrun).
  remember (advance z3 i3) as z4 eqn:Ez4.
  rewrite mt_seq_eq, mt_grp_eq in Hrun; apply mt_cls_inv in Hrun as (i4 & L4 & F4 & N4 & P4 & Hrun).
  remember (advance z4 i4) as z5 eqn:Ez5.
  rewrite mt_seq_eq in Hrun; apply mt_cls_inv in Hrun as (i5 & L5 & F5 & N5 & P5 & Hrun).
  remember (advance z5 i5) as z6 eqn:Ez6.
  apply mt_lit_inv in Hrun as [P6 Hrun].
  injection Hrun as <-.
  assert (Hlen : (length (pafter z4) - length (pafter z5) = i4)%nat).
  { rewrite P4 at 1; rewrite length_app, N4; lia. }
  rewrite Hlen; simpl.
  intros Hg; injection Hg as <-.
  remember (firstn i1 (pafter z1)) as s1 eqn:Es1.
  remember (firstn i2 (pafter z2)) as s2 eqn:Es2.
  remember (firstn i3 (pafter z3)) as s3 eqn:Es3.
  remember (firstn i4 (pafter z4)) as s4 eqn:Es4.
  remember (firstn i5 (pafter z5)) as s5 eqn:Es5.
  split; [destruct s4; simpl in N4; [lia|discriminate]|].
  split; [exact F4|].
  exists (rev (pbefore z0)), (s1 ++ s2 ++ s3), s5, (pafter (advance z6 1)).
  split.
  { rewrite <- Hz0, P0, P1, P2, P3, P4, P5, P6.
    rewrite <- !app_assoc; reflexivity. }
  split.
  { intros Hin; apply in_app_or in Hin as [Hin|Hin];
      [|apply in_app_or in Hin as [Hin|Hin]];
      [revert Hin; apply (forallb_not_paren is_space); [|exact F1]
      |revert Hin; apply (forallb_not_paren func_cls); [|exact F2]
      |revert Hin; apply (forallb_not_paren is_space); [|exact F3]];
      intros c Hc ->; discriminate. }
  split; [exact F5|].
  destruct s3 as [|c3 r3] using rev_ind; [simpl in N3; lia|].
  exists (s1 ++ s2 ++ r3), c3; split.
  - rewrite forallb_app in F3; apply andb_prop in F3 as [_ F3]; simpl in F3.
    rewrite andb_true_r in F3; exact F3.
  - rewrite <- !app_assoc; reflexivity.
Qed.

Lemma str_eqb_true (s t : list ascii) : str_eqb s t = true -> s = t.
Proof.
  revert t; induction s as [|a s IH]; intros [|b t]; simpl; try discriminate; [reflexivity|].
  intros H; apply andb_prop in H as [Hab H]; unfold achar_eqb in Hab.
  apply Ascii.eqb_eq in Hab; subst; f_equal; apply IH, H.
Qed.

Lemma str_eqb_refl (s : list ascii) : str_eqb s s = true.
Proof.
  induction s as [|a s IH]; simpl; [reflexivity|].
  unfold achar_eqb; rewrite Ascii.eqb_refl; exact IH.
Qed.

Lemma fallback_loop_some (parts rest : list (list ascii)) (n : list ascii) :
  fallback_loop parts rest = Some n ->
  n = lstrip_ptr (List.last parts []) /\ n <> [] /\
  exists pre post, rest = pre ++ chars "virtual" :: post /\ post <> [].
Proof.
  induction rest as [|p rest IH]; cbn [fallback_loop]; [discriminate|].
  assert (Hcons : (exists pre post, rest = pre ++ chars "virtual" :: post /\ post <> []) ->
                  exists pre post, p :: rest = pre ++ chars "virtual" :: post /\ post <> []).
  { intros (pre & post & -> & Hp); exists (p :: pre), post; auto. }
  destruct (str_eqb p (chars "virtual")) eqn:Ev.
  - apply str_eqb_true in Ev; subst p.
    destruct rest as [|q rest'].
    + intros H; destruct (IH H) as (_ & _ & pre & post & Habs & _).
      destruct pre; discriminate.
    + destruct (lstrip_ptr (List.last parts [])) as [|c l] eqn:El.
      * intros H; destruct (IH H) as (? & ? & ?); auto.
      * intros H; injection H as <-; split; [reflexivity|]; split; [discriminate|].
        exists [], (q :: rest'); split; [reflexivity|discriminate].
  - intros H; destruct (IH H) as (? & ? & ?); auto.
Qed.

Lemma fallback_loop_none (parts rest : list (list ascii)) :
  fallback_loop parts rest = None ->
  lstrip_ptr (List.last parts []) = [] \/
  forall pre post, rest = pre ++ chars "virtual" :: post -> post = [].
Proof.
  intros H0; destruct (lstrip_ptr (List.last parts [])) as [|c l] eqn:El; [auto|right].
  revert H0; induction rest as [|p rest IH]; cbn [fallback_loop]; intros H pre post E.
  - destruct pre; discriminate.
  - rewrite El in H.
    destruct (str_eqb p (chars "virtual")) eqn:Ev.
    + destruct rest as [|q rest']; [|discriminate].
      destruct pre as [|x pre]; simpl in E; injection E as _ E; [congruence|].
      destruct pre; discriminate.
    + destruct pre as [|x pre]; simpl in E; injection E as E1 E2.
      * subst p; rewrite str_eqb_refl in Ev; discriminate.
      * exact (IH H pre post E2).
Qed.

(* ================================================================== *)
(** * Further properties of the code *)

(* ------------------------------------------------------------------ *)
(** ** The resolver *)

Lemma strip_base_set_base (cm : ClassMap) (k : string) (b : Z) :
  strip_base (set_base cm k b) = strip_base cm.
Proof.
  induction cm as [|[k' v] r IH]; simpl; [reflexivity|].
  destruct (String.eqb k k'); simpl; [reflexivity|]; rewrite IH; reflexivity.
Qed.

Lemma resolve_strip_base (fuel : nat) (name : string) (r : gmap string Z) (cm : ClassMap)
    (t : Z) (r' : gmap string Z) (cm' : ClassMap) :
  resolve fuel name r cm = Some (t, r', cm') -> strip_base cm' = strip_base cm.
Proof.
  revert name r cm t r' cm'.
  induction fuel as [|fuel IH]; intros name r cm t r' cm' H; [discriminate|].
  simpl in H.
  destruct (r !! name); [injection H as _ _ <-; reflexivity|].
  destruct (dict_get cm name) as [vt|]; [|injection H as _ _ <-; reflexivity].
  destruct (parent_truthy (cv_parent_name vt)) as [p|].
  - destruct (resolve fuel p r cm) as [[[pt r1] cm1]|] eqn:E; [|discriminate].
    injection H as _ _ <-; rewrite strip_base_set_base; exact (IH _ _ _ _ _ _ E).
  - injection H as _ _ <-; apply strip_base_set_base.
Qed.

Lemma resolve_all_strip_base (fuel : nat) (names : list string) (r : gmap string Z)
    (cm out : ClassMap) :
  resolve_all fuel names r cm = Some out -> strip_base out = strip_base cm.
Proof.
  revert r cm; induction names as [|n rest IH]; intros r cm H; simpl in H.
  - injection H as <-; reflexivity.
  - destruct (resolve fuel n r cm) as [[[t r'] cm']|] eqn:E; [|discriminate].
    rewrite (IH _ _ H); exact (resolve_strip_base _ _ _ _ _ _ _ E).
Qed.

(** Extra: [_assign_base_indices] writes nothing but [base_index]: with the
    base indices zeroed, its result is its input (same keys in the same order,
    same class names, parents and own functions). *)
Theorem assign_base_indices_only_base (fuel : nat) (cm out : ClassMap) :
  _assign_base_indices fuel cm = Some out -> strip_base out = strip_base cm.
Proof. apply resolve_all_strip_base. Qed.

Lemma assign_base_indices_only_base_witness :
  _assign_base_indices 5 ex_cm = Some ex_cm_resolved /\
  strip_base ex_cm_resolved = strip_base ex_cm.
Proof.
  assert (H : _assign_base_indices 5 ex_cm = Some ex_cm_resolved) by (vm_compute; reflexivity).
  split; [exact H | exact (assign_base_indices_only_base 5 ex_cm ex_cm_resolved H)].
Defined.

Lemma chain_total_descends_fuel (cm : ClassMap) (c d : string) :
  descends cm c d -> forall f t, chain_total f cm d = Some t ->
  exists f' t', (f' <= f)%nat /\ chain_total f' cm c = Some t'.
Proof.
  induction 1 as [|d vt p Gd Pd Hdesc IH]; intros f t H.
  - exists f, t; auto.
  - destruct f as [|f]; [discriminate|]; simpl in H; rewrite Gd, Pd in H.
    destruct (chain_total f cm p) as [tp|] eqn:E; [|discriminate].
    destruct (IH f tp E) as (f' & t' & Hle & Hc); exists f', t'; split; [lia|exact Hc].
Qed.

Lemma cycle_chain_total_none (cm : ClassMap) (c : string) (vt : ClassVTable) (p : string) :
  dict_get cm c = Some vt -> parent_truthy (cv_parent_name vt) = Some p ->
  descends cm c p -> forall f, chain_total f cm c = None.
Proof.
  intros Gc Pc Hd f.
  induction f as [f IH] using (well_founded_induction lt_wf).
  destruct (chain_total f cm c) as [t|] eqn:E; [exfalso|reflexivity].
  destruct f as [|f]; [discriminate|]; simpl in E; rewrite Gc, Pc in E.
  destruct (chain_total f cm p) as [tp|] eqn:Ep; [|discriminate].
  destruct (chain_total_descends_fuel cm c p Hd f tp Ep) as (f' & t' & Hle & Hc).
  rewrite (IH f' ltac:(lia)) in Hc; discriminate.
Qed.

(** Extra: if a class's parent chain leads back to the class itself,
    [_assign_base_indices] never finishes, whatever the recursion budget (the
    Python recursion runs until the interpreter's limit). *)
Theorem cyclic_parent_chain_never_finishes (fuel : nat) (cm : ClassMap) (c : string)
    (vt : ClassVTable) (p : string) :
  dict_get cm c = Some vt -> parent_truthy (cv_parent_name vt) = Some p ->
  descends cm c p -> _assign_base_indices fuel cm = None.
Proof.
  intros Gc Pc Hd.
  destruct (_assign_base_indices fuel cm) as [out|] eqn:E; [exfalso|reflexivity].
  assert (Hk : In c (map fst cm)) by (apply dict_get_in_keys; congruence).
  destruct (assign_base_indices_chains _ _ _ E c Hk) as [f Hf].
  exact (Hf (cycle_chain_total_none cm c vt p Gc Pc Hd f)).
Qed.

Lemma cyclic_parent_chain_never_finishes_witness :
  dict_get ex_cycle "A" = Some (mkCV "A" (Some "B") [] 0) /\
  _assign_base_indices 1000 ex_cycle = None.
Proof.
  assert (G : dict_get ex_cycle "A" = Some (mkCV "A" (Some "B") [] 0)) by reflexivity.
  split; [exact G|].
  apply (cyclic_parent_chain_never_finishes 1000 ex_cycle "A" _ "B" G); [reflexivity|].
  apply (desc_parent ex_cycle "A" "B" (mkCV "B" (Some "A") [] 0) "A");
    [reflexivity|reflexivity|constructor].
Defined.

(** Extra: after resolution, a class whose parent name is absent, empty, or
    not a key of the class map has [base_index = 0]. *)
Theorem base_index_zero_without_parent_entry (fuel : nat) (cm out : ClassMap)
    (k : string) (vt : ClassVTable) :
  _assign_base_indices fuel cm = Some out -> dict_get out k = Some vt ->
  (forall p, parent_truthy (cv_parent_name vt) = Some p -> dict_get cm p = None) ->
  cv_base_index vt = 0.
Proof.
  intros Ha Gk Hp.
  destruct (assign_base_indices_spec _ _ _ Ha) as (_ & _ & Hb).
  destruct (Hb _ _ Gk) as [f Hf]; unfold parent_total in Hf.
  destruct (parent_truthy (cv_parent_name vt)) as [p|] eqn:P.
  - destruct f as [|f]; [discriminate|]; simpl in Hf; rewrite (Hp p eq_refl) in Hf.
    congruence.
  - congruence.
Qed.

Lemma base_index_zero_without_parent_entry_witness :
  _assign_base_indices 5 [("Orphan", mkCV "Orphan" (Some "Gone") [mkVF "F" false 1] 7)]%string
    = Some [("Orphan", mkCV "Orphan" (Some "Gone") [mkVF "F" false 1] 0)]%string /\
  cv_base_index (mkCV "Orphan" (Some "Gone") [mkVF "F" false 1] 0) = 0.
Proof.
  assert (H : _assign_base_indices 5 [("Orphan", mkCV "Orphan" (Some "Gone") [mkVF "F" false 1] 7)]%string
    = Some [("Orphan", mkCV "Orphan" (Some "Gone") [mkVF "F" false 1] 0)]%string)
    by (vm_compute; reflexivity).
  split; [exact H|].
  apply (base_index_zero_without_parent_entry 5 _ _ "Orphan" _ H); [reflexivity|].
  intros p Hp; vm_compute in Hp; injection Hp as <-; reflexivity.
Defined.

(* ------------------------------------------------------------------ *)
(** ** The emitter *)

Lemma own_slots_bounds (fs : list VirtualFunction) :
  Z.of_nat (length fs) <= own_slots fs <= 2 * Z.of_nat (length fs).
Proof.
  induction fs as [|f r IH]; simpl; [lia|].
  destruct (vf_is_destructor f); lia.
Qed.

Lemma chain_total_nonneg (f : nat) (cm : ClassMap) (k : string) (t : Z) :
  chain_total f cm k = Some t -> 0 <= t.
Proof.
  revert k t; induction f as [|f IH]; intros k t H; [discriminate|]; simpl in H.
  destruct (dict_get cm k) as [vt|]; [|injection H as <-; lia].
  pose proof (own_slots_bounds (cv_own_functions vt)).
  destruct (parent_truthy (cv_parent_name vt)) as [p|].
  - destruct (chain_total f cm p) as [tp|] eqn:E; [|discriminate].
    injection H as <-; pose proof (IH _ _ E); lia.
  - injection H as <-; lia.
Qed.

Lemma db_entry_format (cm : ClassMap) (version k : string) :
  db_entry (_format_output cm version) k = option_map format_class (dict_get cm k).
Proof.
  unfold db_entry, _format_output; simpl.
  induction cm as [|[k' vt] r IH]; simpl; [reflexivity|].
  rewrite String.eqb_sym; destruct (String.eqb k k'); [reflexivity|exact IH].
Qed.

Lemma format_class_fields (vt : ClassVTable) :
  out_parent (format_class vt) = cv_parent_name vt /\
  out_base_index (format_class vt) = cv_base_index vt /\
  out_own_count (format_class vt) = Z.of_nat (length (cv_own_functions vt)) /\
  out_functions (format_class vt) = fst (emit_functions (cv_base_index vt) (cv_own_functions vt)).
Proof.
  unfold format_class; destruct (emit_functions _ _); repeat split.
Qed.

(** Extra: every class entry [_format_output] emits after a finished
    resolution has [0 <= base_index], and its slot span
    [total_slots - base_index] lies between [own_count] and [2 * own_count]. *)
Theorem emitted_slot_bounds (fuel : nat) (cm out : ClassMap) (version name : string)
    (co : ClassOut) :
  _assign_base_indices fuel cm = Some out ->
  db_entry (_format_output out version) name = Some co ->
  0 <= out_base_index co /\
  out_own_count co <= out_total_slots co - out_base_index co <= 2 * out_own_count co.
Proof.
  intros Ha He; rewrite db_entry_format in He.
  destruct (dict_get out name) as [vt|] eqn:G; [|discriminate].
  injection He as <-.
  destruct (format_class_fields vt) as (_ & Eb & Eo & _).
  rewrite format_class_total, Eb, Eo.
  pose proof (own_slots_bounds (cv_own_functions vt)).
  destruct (assign_base_indices_spec _ _ _ Ha) as (_ & _ & Hb).
  destruct (Hb _ _ G) as [f Hf]; unfold parent_total in Hf.
  destruct (parent_truthy (cv_parent_name vt)) as [p|].
  - pose proof (chain_total_nonneg _ _ _ _ Hf); lia.
  - injection Hf as <-; lia.
Qed.

Lemma emitted_slot_bounds_witness :
  exists out, _assign_base_indices 10 ex_registry = Some out /\
  db_entry (_format_output out "4.26") "Mid" =
    Some (mkOut (Some "Root") 2 2 5 [(2, "funcC", false); (3, "~Mid", true)])%string /\
  0 <= 2 /\ 2 <= 5 - 2 <= 2 * 2.
Proof.
  destruct (_assign_base_indices 10 ex_registry) as [out|] eqn:Ha; [|vm_compute in Ha; discriminate].
  assert (He : db_entry (_format_output out "4.26") "Mid" =
    Some (mkOut (Some "Root") 2 2 5 [(2, "funcC", false); (3, "~Mid", true)])%string).
  { vm_compute in Ha; injection Ha as <-; vm_compute; reflexivity. }
  exists out; split; [reflexivity|]; split; [exact He|].
  exact (emitted_slot_bounds 10 ex_registry out "4.26" "Mid" _ Ha He).
Defined.

(* ------------------------------------------------------------------ *)
(** ** The registry loop of [build_vtable_db] *)

Lemma map_fst_dict_set {V : Type} (m : list (string * V)) (k : string) (v : V) :
  map fst (dict_set m k v) = add_key (map fst m) k.
Proof.
  unfold add_key; induction m as [|[k' v'] r IH]; cbn [dict_set map fst].
  { destruct (in_dec string_dec k []) as [[]|_]; reflexivity. }
  destruct (String.eqb_spec k k') as [->|Hne]; cbn [map fst].
  - destruct (in_dec string_dec k' (k' :: map fst r)) as [_|Hn]; [reflexivity|].
    exfalso; apply Hn; left; reflexivity.
  - rewrite IH.
    destruct (in_dec string_dec k (map fst r)) as [Hi|Hi];
      destruct (in_dec string_dec k (k' :: map fst r)) as [Hi'|Hi'];
      try reflexivity.
    + exfalso; apply Hi'; right; exact Hi.
    + exfalso; destruct Hi' as [E|E]; [congruence|contradiction].
Qed.

Lemma build_keys_fold (fs : FileSystem) (root : string) (defs : list ClassDef)
    (m : ClassMap) (log : list string) :
  map fst (fst (build_class_map fs root defs m log)) =
  fold_left add_key (config_names defs) (map fst m).
Proof.
  revert m log; induction defs as [|[[n p] r] rest IH]; intros m log; [reflexivity|].
  simpl; destruct (parse_header _ _ _) as [own diag]; rewrite IH, map_fst_dict_set; reflexivity.
Qed.

Lemma fold_add_key_nodup (l : list string) :
  fold_left add_key l [] = rev (nodup string_dec (rev l)).
Proof.
  induction l as [|x l IH] using rev_ind; [reflexivity|].
  rewrite fold_left_app, IH, rev_app_distr; simpl; unfold add_key.
  destruct (in_dec string_dec x (rev (nodup string_dec (rev l)))) as [Hi|Hi];
    destruct (in_dec string_dec x (rev l)) as [Hi'|Hi']; try reflexivity.
  - exfalso; apply Hi'; rewrite <- in_rev in Hi; apply nodup_In in Hi; exact Hi.
  - exfalso; apply Hi; rewrite <- in_rev; apply nodup_In; exact Hi'.
Qed.

(** Extra: the class map [build_vtable_db] builds has the configured class
    names as keys, each once, in the order of their first configuration
    entry. *)
Theorem build_keys_config_order (fs : FileSystem) (root : string) (defs : list ClassDef) :
  map fst (fst (build_class_map fs root defs [] [])) =
  rev (nodup string_dec (rev (config_names defs))).
Proof. rewrite build_keys_fold; apply fold_add_key_nodup. Qed.

Lemma build_entry_last_aux (fs : FileSystem) (root : string) (defs : list ClassDef)
    (m : ClassMap) (log : list string) (k : string) (vt : ClassVTable) :
  dict_get (fst (build_class_map fs root defs m log)) k = Some vt ->
  (dict_get m k = Some vt /\ ~ In k (config_names defs)) \/
  exists pre p rel post, defs = pre ++ (k, p, rel) :: post /\ ~ In k (config_names post) /\
    vt = mkCV k p (fst (parse_header (fs (path_join root rel)) (path_join root rel) k)) 0.
Proof.
  revert m log; induction defs as [|[[n p] r] rest IH]; intros m log H; simpl in H.
  - left; split; [exact H | intros []].
  - destruct (parse_header (fs (path_join root r)) (path_join root r) n) as [own diag] eqn:Ep.
    destruct (IH _ _ H) as [[Hg Hn] | (pre & p' & rel & post & -> & Hn & Hv)].
    + rewrite dict_get_dict_set in Hg.
      destruct (String.eqb_spec k n) as [->|Hne].
      * right; injection Hg as <-; exists [], p, r, rest; split; [reflexivity|].
        split; [exact Hn|]; rewrite Ep; reflexivity.
      * left; split; [exact Hg|]; simpl; intros [E|E]; [congruence|contradiction].
    + right; exists ((n, p, r) :: pre), p', rel, post; auto.
Qed.

(** Extra: each entry of the class map [build_vtable_db] builds comes from
    the last configuration entry naming that class: its parent is that entry's
    parent and its own functions are [parse_header] of that entry's header. *)
Theorem build_entry_from_last_config (fs : FileSystem) (root : string) (defs : list ClassDef)
    (k : string) (vt : ClassVTable) :
  dict_get (fst (build_class_map fs root defs [] [])) k = Some vt ->
  exists pre p rel post, defs = pre ++ (k, p, rel) :: post /\ ~ In k (config_names post) /\
    vt = mkCV k p (fst (parse_header (fs (path_join root rel)) (path_join root rel) k)) 0.
Proof.
  intros H; destruct (build_entry_last_aux fs root defs [] [] k vt H) as [[Hg _]|Hx];
    [discriminate | exact Hx].
Qed.

Lemma build_entry_from_last_config_witness :
  dict_get (fst (build_class_map ex_fs "/ue" ex_cfg_dup [] [])) "Mid" =
    Some (mkCV "Mid" (Some "Root") [mkVF "funcC" false 3; mkVF "~Mid" true 4] 0) /\
  exists pre p rel post, ex_cfg_dup = pre ++ ("Mid", p, rel) :: post /\
    ~ In "Mid"%string (config_names post) /\
    mkCV "Mid" (Some "Root") [mkVF "funcC" false 3; mkVF "~Mid" true 4] 0 =
    mkCV "Mid" p (fst (parse_header (ex_fs (path_join "/ue" rel)) (path_join "/ue" rel) "Mid")) 0.
Proof.
  assert (H : dict_get (fst (build_class_map ex_fs "/ue" ex_cfg_dup [] [])) "Mid" =
    Some (mkCV "Mid" (Some "Root") [mkVF "funcC" false 3; mkVF "~Mid" true 4] 0))
    by (vm_compute; reflexivity).
  split; [exact H | exact (build_entry_from_last_config _ _ _ _ _ H)].
Defined.

Lemma build_log_aux (fs : FileSystem) (root : string) (defs : list ClassDef)
    (m : ClassMap) (log : list string) :
  snd (build_class_map fs root defs m log) =
  log ++ flat_map (fun '(_, _, rel) =>
                     match fs (path_join root rel) with
                     | None => [warning_for (path_join root rel)]
                     | Some _ => []
                     end) defs.
Proof.
  revert m log; induction defs as [|[[n p] r] rest IH]; intros m log; simpl;
    [rewrite app_nil_r; reflexivity|].
  destruct (fs (path_join root r)) eqn:E; simpl; rewrite IH;
    [rewrite app_nil_r | rewrite <- app_assoc]; reflexivity.
Qed.

(** Extra: what [build_vtable_db] writes to stderr is one warning per
    configuration entry whose header path does not exist, in configuration
    order, and nothing else. *)
Theorem build_log_warnings (fs : FileSystem) (root : string) (defs : list ClassDef) :
  snd (build_class_map fs root defs [] []) =
  flat_map (fun '(_, _, rel) =>
              match fs (path_join root rel) with
              | None => [warning_for (path_join root rel)]
              | Some _ => []
              end) defs.
Proof. rewrite build_log_aux; reflexivity. Qed.

(* ------------------------------------------------------------------ *)
(** ** The line scanner *)

Lemma pp_step_keeps (st : ScanState) (line : list ascii) :
  results (pp_step st line) = results st /\ in_class (pp_step st line) = in_class st /\
  brace_depth (pp_step st line) = brace_depth st /\
  class_brace_depth (pp_step st line) = class_brace_depth st /\
  accum (pp_step st line) = accum st /\
  accum_start_line (pp_step st line) = accum_start_line st.
Proof.
  unfold pp_step.
  destruct (found (re_match re_pp_if line)); [repeat split|].
  destruct (found (re_match re_pp_elif line)); [repeat split|].
  destruct (found (re_match re_pp_else line)).
  { destruct (pp_depth_stack st); [repeat split|].
    destruct (_ && _); repeat split. }
  destruct (found (re_match re_pp_endif line)); [|repeat split].
  destruct (pp_depth_stack st); repeat split.
Qed.

(** Every way a line changes [results] goes through [_process_declaration]. *)
Lemma scan_step_results (P : list VirtualFunction -> Prop) (cls : string) (st : ScanState)
    (n : Z) (l : list ascii) :
  (forall acc asl rs, P rs -> P (_process_declaration acc asl rs)) ->
  P (results st) -> P (results (scan_step cls st n l)).
Proof.
  intros Hp H; unfold scan_step.
  destruct (is_prefix _ _); [rewrite (proj1 (pp_step_keeps _ _)); exact H|].
  destruct (0 <? editor_depth st); [exact H|].
  destruct (negb (in_class st)).
  { destruct (found _); [|exact H]; destruct (_ <=? 0); exact H. }
  destruct (_ && _); [exact H|].
  unfold decl_step.
  destruct (_ || _); [|exact H].
  destruct (_ || _); [apply Hp, H|]; destruct (has_char _ _); [apply Hp, H|exact H].
Qed.

Lemma scan_lines_results (P : list VirtualFunction -> Prop) (cls : string)
    (lines : list (list ascii)) (st : ScanState) (n : Z) :
  (forall acc asl rs, P rs -> P (_process_declaration acc asl rs)) ->
  P (results st) -> P (results (scan_lines cls st n lines)).
Proof.
  revert st n; induction lines as [|l r IH]; intros st n Hp H; [exact H|].
  apply IH; [exact Hp|]; apply scan_step_results; assumption.
Qed.

Lemma scan_lines_outside_class (cls : string) (lines : list (list ascii)) (st : ScanState)
    (n : Z) :
  in_class st = false ->
  Forall (fun l => found (re_search (class_pattern cls) l) = false) lines ->
  results (scan_lines cls st n lines) = results st /\
  in_class (scan_lines cls st n lines) = false.
Proof.
  revert st n; induction lines as [|l r IH]; intros st n Hc Hl; [auto|].
  inversion Hl as [|l' r' Hl1 Hr]; subst; simpl.
  assert (E : results (scan_step cls st n l) = results st /\
              in_class (scan_step cls st n l) = false).
  { unfold scan_step.
    destruct (is_prefix _ _).
    { destruct (pp_step_keeps st (strip l)) as (E1 & E2 & _); rewrite E1, E2; auto. }
    destruct (0 <? editor_depth st); [auto|].
    rewrite Hc; simpl; rewrite Hl1; auto. }
  destruct E as [E1 E2]; rewrite <- E1; apply IH; assumption.
Qed.

(** Extra: if no line of a header matches the class pattern of the target
    class (so the scanner never enters class scope), [parse_header] returns
    no functions and logs nothing, whatever virtual declarations the file has. *)
Theorem parse_header_no_class_line (lines : list string) (path cls : string) :
  (forall l, In l lines -> found (re_search (class_pattern cls) (chars l)) = false) ->
  parse_header (Some lines) path cls = ([], []).
Proof.
  intros H; simpl; f_equal.
  apply (scan_lines_outside_class cls (map chars lines) scan_init 1); [reflexivity|].
  apply List.Forall_forall; intros l Hl; apply in_map_iff in Hl as (l' & <- & Hl').
  apply H, Hl'.
Qed.

Lemma parse_header_no_class_line_witness :
  (forall l, In l ["class Other {"; "  virtual void F();"; "};"]%string ->
     found (re_search (class_pattern "Foo") (chars l)) = false) /\
  parse_header (Some ["class Other {"; "  virtual void F();"; "};"]%string) "Other.h" "Foo" = ([], []).
Proof.
  assert (H : forall l, In l ["class Other {"; "  virtual void F();"; "};"]%string ->
     found (re_search (class_pattern "Foo") (chars l)) = false).
  { intros l Hl; simpl in Hl; destruct Hl as [<-|[<-|[<-|[]]]]; vm_compute; reflexivity. }
  split; [exact H | exact (parse_header_no_class_line _ _ _ H)].
Defined.

Lemma word_not_tilde (g : list ascii) :
  g <> [] -> forallb is_word g = true -> starts_tilde g = false.
Proof.
  intros Hne Hw; destruct g as [|c r]; [congruence|]; simpl in Hw.
  change (achar_eqb "~"%char c && is_prefix [] r = false).
  unfold achar_eqb; destruct (Ascii.eqb_spec "~" c) as [<-|_]; [|reflexivity].
  vm_compute in Hw; discriminate.
Qed.

Lemma extract_func_name_flag (decl name : list ascii) (is_dtor : bool) :
  _extract_func_name decl = (name, is_dtor) -> is_dtor = starts_tilde name /\ name <> [].
Proof.
  unfold _extract_func_name.
  destruct (group1 (re_search _RE_DESTRUCTOR decl)) as [g|].
  { intros H; injection H as <- <-; split; [reflexivity|discriminate]. }
  destruct (group1 (re_search _RE_FUNC_NAME decl)) as [g|] eqn:Hf.
  { intros H; injection H as <- <-.
    destruct (func_name_match _ _ Hf) as (Hne & Hw & _).
    rewrite (word_not_tilde g Hne Hw); auto. }
  destruct (fallback_loop _ _) as [n|] eqn:Hb.
  - intros H; injection H as <- <-.
    destruct (fallback_loop_some _ _ _ Hb) as (_ & Hne & _); auto.
  - intros H; injection H as <- <-; split; [reflexivity|discriminate].
Qed.

Lemma process_declaration_flags (acc : list ascii) (asl : Z) (rs : list VirtualFunction) :
  Forall (fun f => vf_is_destructor f = starts_tilde (list_ascii_of_string (vf_name f)) /\
                   vf_name f <> ""%string) rs ->
  Forall (fun f => vf_is_destructor f = starts_tilde (list_ascii_of_string (vf_name f)) /\
                   vf_name f <> ""%string) (_process_declaration acc asl rs).
Proof.
  intros H; unfold _process_declaration.
  destruct (negb _); [exact H|]; destruct (found _); [exact H|].
  destruct (_extract_func_name acc) as [name d] eqn:E.
  destruct (extract_func_name_flag _ _ _ E) as [Hd Hne].
  apply Forall_app; split; [exact H|]; constructor; [|constructor]; simpl.
  rewrite list_ascii_of_string_of_list_ascii; split; [exact Hd|].
  intros Hs; apply Hne; rewrite <- (list_ascii_of_string_of_list_ascii name), Hs; reflexivity.
Qed.

(** Extra: every function [parse_header] records has a non-empty name and is
    flagged a destructor exactly when its name starts with [~]. *)
Theorem parse_header_destructor_flags (file : option (list string)) (path cls : string) :
  Forall (fun f => vf_is_destructor f = starts_tilde (list_ascii_of_string (vf_name f)) /\
                   vf_name f <> ""%string) (fst (parse_header file path cls)).
Proof.
  destruct file as [lines|]; simpl; [|constructor].
  apply scan_lines_results; [apply process_declaration_flags | constructor].
Qed.

Lemma process_declaration_cases (acc : list ascii) (asl : Z) (rs : list VirtualFunction) :
  _process_declaration acc asl rs = rs \/
  exists v, _process_declaration acc asl rs = rs ++ [v] /\ vf_line_number v = asl.
Proof.
  unfold _process_declaration.
  destruct (negb _); [auto|]; destruct (found _); [auto|].
  destruct (_extract_func_name acc) as [name d]; right; eexists; split; reflexivity.
Qed.

Lemma ssorted_snoc (l : list Z) (x : Z) :
  StronglySorted Z.lt l -> Forall (fun y => y < x) l -> StronglySorted Z.lt (l ++ [x]).
Proof.
  induction l as [|a l IH]; intros Hs Hf; simpl.
  - repeat constructor.
  - apply StronglySorted_inv in Hs as [Hs Ha]; inversion Hf as [|? ? Hax Hf']; subst.
    constructor; [apply IH; assumption|].
    apply Forall_app; split; [exact Ha|]; constructor; [exact Hax|constructor].
Qed.

Lemma line_order_same (st st' : ScanState) (n : Z) :
  results st' = results st -> accum st' = accum st ->
  accum_start_line st' = accum_start_line st ->
  line_order_inv st n -> line_order_inv st' (n + 1).
Proof.
  intros E1 E2 E3 (Hs & Hb & Ha); unfold line_order_inv; rewrite E1, E2, E3.
  split; [exact Hs|]; split.
  - eapply List.Forall_impl; [|exact Hb]; simpl; intros f Hf; lia.
  - intros Hne; destruct (Ha Hne) as [H1 H2]; split; [lia|exact H2].
Qed.

Lemma process_declaration_order (acc : list ascii) (asl n : Z) (rs : list VirtualFunction) :
  StronglySorted Z.lt (map vf_line_number rs) ->
  Forall (fun f => 1 <= vf_line_number f < n) rs ->
  Forall (fun f => vf_line_number f < asl) rs -> 1 <= asl < n + 1 ->
  StronglySorted Z.lt (map vf_line_number (_process_declaration acc asl rs)) /\
  Forall (fun f => 1 <= vf_line_number f < n + 1) (_process_declaration acc asl rs).
Proof.
  intros Hs Hb Ha Hasl.
  assert (Hb' : Forall (fun f => 1 <= vf_line_number f < n + 1) rs)
    by (eapply List.Forall_impl; [|exact Hb]; simpl; intros f Hf; lia).
  destruct (process_declaration_cases acc asl rs) as [->|(v & -> & Hv)]; [auto|].
  rewrite map_app; simpl; rewrite Hv; split.
  - apply ssorted_snoc; [exact Hs|].
    apply List.Forall_map; exact Ha.
  - apply Forall_app; split; [exact Hb'|]; constructor; [rewrite Hv; lia|constructor].
Qed.

Lemma scan_step_line_order (cls : string) (st : ScanState) (n : Z) (l : list ascii) :
  1 <= n -> line_order_inv st n -> line_order_inv (scan_step cls st n l) (n + 1).
Proof.
  intros Hn Hinv; unfold scan_step.
  destruct (is_prefix _ _).
  { destruct (pp_step_keeps st (strip l)) as (E1 & _ & _ & _ & E5 & E6).
    exact (line_order_same _ _ _ E1 E5 E6 Hinv). }
  destruct (0 <? editor_depth st); [exact (line_order_same _ _ _ eq_refl eq_refl eq_refl Hinv)|].
  destruct (negb (in_class st)).
  { destruct (found _); [|exact (line_order_same _ _ _ eq_refl eq_refl eq_refl Hinv)].
    destruct (_ <=? 0); exact (line_order_same _ _ _ eq_refl eq_refl eq_refl Hinv). }
  destruct (_ && _); [exact (line_order_same _ _ _ eq_refl eq_refl eq_refl Hinv)|].
  unfold decl_step; cbv zeta.
  destruct (_ || _); [|exact (line_order_same _ _ _ eq_refl eq_refl eq_refl Hinv)].
  destruct Hinv as (Hs & Hb & Ha).
  assert (Hasl : 1 <= (if str_eqb (accum st) [] then n else accum_start_line st) < n + 1 /\
                 Forall (fun f => vf_line_number f < (if str_eqb (accum st) [] then n
                                                      else accum_start_line st)) (results st)).
  { destruct (accum st) as [|c r] eqn:EA; simpl.
    - split; [lia|]; eapply List.Forall_impl; [|exact Hb]; simpl; intros f Hf; lia.
    - destruct (Ha ltac:(discriminate)) as [H1 H2]; split; [lia|exact H2]. }
  destruct Hasl as [Hasl Hlt].
  assert (Hdone : forall asl, 1 <= asl < n + 1 ->
            Forall (fun f => vf_line_number f < asl) (results st) ->
            forall acc ec pp bd cbd,
            line_order_inv (mkScan (_process_declaration acc asl (results st)) ec pp true bd cbd [] asl)
                           (n + 1)).
  { intros asl H1 H2 acc ec pp bd cbd; unfold line_order_inv; simpl.
    destruct (process_declaration_order acc asl n (results st) Hs Hb H2 H1) as [S1 S2].
    split; [exact S1|]; split; [exact S2|]; intros Hne; congruence. }
  destruct (_ || _); [apply Hdone; assumption|].
  destruct (has_char _ _); [apply Hdone; assumption|].
  unfold line_order_inv; simpl; split; [exact Hs|]; split.
  - eapply List.Forall_impl; [|exact Hb]; simpl; intros f Hf; lia.
  - intros _; split; assumption.
Qed.

Lemma scan_lines_line_order (cls : string) (lines : list (list ascii)) (st : ScanState) (n : Z) :
  1 <= n -> line_order_inv st n ->
  line_order_inv (scan_lines cls st n lines) (n + Z.of_nat (length lines)).
Proof.
  revert st n; induction lines as [|l r IH]; intros st n Hn Hinv; cbn [scan_lines length].
  - rewrite Z.add_0_r; exact Hinv.
  - replace (n + Z.of_nat (S (length r))) with (n + 1 + Z.of_nat (length r)) by lia.
    apply IH; [lia|]; apply scan_step_line_order; assumption.
Qed.

(** Extra: the functions [parse_header] records carry strictly increasing
    line numbers, each between 1 and the number of lines of the file: they
    come out in source order, one per starting line. *)
Theorem parse_header_line_numbers (lines : list string) (path cls : string) :
  StronglySorted Z.lt (map vf_line_number (fst (parse_header (Some lines) path cls))) /\
  Forall (fun f => 1 <= vf_line_number f <= Z.of_nat (length lines))
         (fst (parse_header (Some lines) path cls)).
Proof.
  simpl.
  assert (H0 : line_order_inv scan_init 1)
    by (split; [apply SSorted_nil|]; split; [apply List.Forall_nil|]; intros H; exfalso; apply H; reflexivity).
  destruct (scan_lines_line_order cls (map chars lines) scan_init 1 ltac:(lia) H0)
    as (Hs & Hb & _).
  rewrite length_map in Hb.
  split; [exact Hs|]; eapply List.Forall_impl; [|exact Hb]; simpl; intros f Hf; lia.
Qed.

Lemma scan_step_nondirective_pp (cls : string) (st : ScanState) (n : Z) (l : list ascii) :
  is_prefix (chars "#") (strip l) = false ->
  editor_depth (scan_step cls st n l) = editor_depth st /\
  pp_depth_stack (scan_step cls st n l) = pp_depth_stack st.
Proof.
  intros P; unfold scan_step; rewrite P.
  destruct (0 <? editor_depth st); [auto|].
  destruct (negb (in_class st)).
  { destruct (found _); [|auto]; destruct (_ <=? 0); auto. }
  destruct (_ && _); [auto|].
  unfold decl_step; cbv zeta.
  destruct (_ || _); [|auto].
  destruct (_ || _); [auto|]; destruct (has_char _ _); auto.
Qed.

Lemma scan_step_pp_plain (cls : string) (st : ScanState) (n : Z) (l : list ascii) :
  pp_kind l = KPlain ->
  editor_depth (scan_step cls st n l) = editor_depth st /\
  pp_depth_stack (scan_step cls st n l) = pp_depth_stack st.
Proof.
  unfold pp_kind; cbv zeta.
  destruct (is_prefix (chars "#") (strip l)) eqn:P; [|intros _; apply scan_step_nondirective_pp, P].
  simpl; intros H; unfold scan_step; rewrite P; unfold pp_step.
  destruct (found (re_match re_pp_if (strip l))); [discriminate|].
  destruct (found (re_match re_pp_elif (strip l))); [auto|].
  destruct (found (re_match re_pp_else (strip l))); [discriminate|].
  destruct (found (re_match re_pp_endif (strip l))); [discriminate|auto].
Qed.

Lemma pp_kind_directive (l : list ascii) (k : pp_kind_t) :
  pp_kind l = k -> k <> KPlain ->
  is_prefix (chars "#") (strip l) = true.
Proof.
  unfold pp_kind; cbv zeta; destruct (is_prefix _ _); [auto|]; simpl; congruence.
Qed.

Lemma scan_step_pp_if (cls : string) (st : ScanState) (n : Z) (l : list ascii) :
  pp_kind l = KIf -> exists e, pp_depth_stack (scan_step cls st n l) = pp_depth_stack st ++ [e].
Proof.
  intros K; pose proof (pp_kind_directive l KIf K ltac:(discriminate)) as P.
  unfold pp_kind in K; cbv zeta in K; rewrite P in K; simpl in K.
  unfold scan_step; rewrite P; unfold pp_step.
  destruct (found (re_match re_pp_if (strip l))); [eexists; reflexivity|].
  destruct (found (re_match re_pp_elif (strip l))); [discriminate|].
  destruct (found (re_match re_pp_else (strip l))); [discriminate|].
  destruct (found (re_match re_pp_endif (strip l))); discriminate.
Qed.

Lemma scan_step_pp_else (cls : string) (st : ScanState) (n : Z) (l : list ascii)
    (s : list bool) (b : bool) :
  pp_kind l = KElse -> pp_depth_stack st = s ++ [b] ->
  exists b', pp_depth_stack (scan_step cls st n l) = s ++ [b'].
Proof.
  intros K Hs; pose proof (pp_kind_directive l KElse K ltac:(discriminate)) as P.
  unfold pp_kind in K; cbv zeta in K; rewrite P in K; simpl in K.
  unfold scan_step; rewrite P; unfold pp_step.
  destruct (found (re_match re_pp_if (strip l))); [discriminate|].
  destruct (found (re_match re_pp_elif (strip l))); [discriminate|].
  destruct (found (re_match re_pp_else (strip l))); [|destruct (found _); discriminate].
  rewrite Hs; destruct (s ++ [b]) as [|x xs] eqn:E; [destruct s; discriminate|].
  destruct (_ && _); cbn [pp_depth_stack];
    [rewrite <- E, removelast_last; eexists; reflexivity|].
  exists b; rewrite Hs, E; reflexivity.
Qed.

Lemma scan_step_pp_endif (cls : string) (st : ScanState) (n : Z) (l : list ascii)
    (s : list bool) (b : bool) :
  pp_kind l = KEndif -> pp_depth_stack st = s ++ [b] ->
  pp_depth_stack (scan_step cls st n l) = s.
Proof.
  intros K Hs; pose proof (pp_kind_directive l KEndif K ltac:(discriminate)) as P.
  unfold pp_kind in K; cbv zeta in K; rewrite P in K; simpl in K.
  unfold scan_step; rewrite P; unfold pp_step.
  destruct (found (re_match re_pp_if (strip l))); [discriminate|].
  destruct (found (re_match re_pp_elif (strip l))); [discriminate|].
  destruct (found (re_match re_pp_else (strip l))); [discriminate|].
  destruct (found (re_match re_pp_endif (strip l))); [|discriminate].
  rewrite Hs; destruct (s ++ [b]) as [|x xs] eqn:E; [destruct s; discriminate|].
  cbn [pp_depth_stack]; rewrite <- E, removelast_last; reflexivity.
Qed.

Lemma scan_lines_pp_stack (cls : string) (ls : list (list ascii)) :
  forall k st n s t, pp_balanced k ls = true -> pp_depth_stack st = s ++ t ->
  length t = k -> pp_depth_stack (scan_lines cls st n ls) = s.
Proof.
  induction ls as [|l r IH]; intros k st n s t Hb Hs Ht; simpl in *.
  - apply Nat.eqb_eq in Hb; subst k; destruct t; [|discriminate].
    rewrite app_nil_r in Hs; exact Hs.
  - destruct (pp_kind l) eqn:K.
    + apply (IH k _ _ s t Hb); [|exact Ht].
      rewrite (proj2 (scan_step_pp_plain cls st n l K)); exact Hs.
    + destruct (scan_step_pp_if cls st n l K) as [e He].
      apply (IH (S k) _ _ s (t ++ [e]) Hb); [rewrite He, Hs, app_assoc; reflexivity|].
      rewrite length_app, Ht; simpl; lia.
    + destruct k as [|k]; [discriminate|].
      destruct t as [|b t0] using rev_ind; [discriminate|].
      rewrite app_assoc in Hs.
      destruct (scan_step_pp_else cls st n l _ _ K Hs) as [b' Hb'].
      apply (IH (S k) _ _ s (t0 ++ [b']) Hb); [rewrite Hb', app_assoc; reflexivity|].
      rewrite length_app in Ht |- *; exact Ht.
    + destruct k as [|k]; [discriminate|].
      destruct t as [|b t0] using rev_ind; [discriminate|].
      rewrite app_assoc in Hs.
      apply (IH k _ _ s t0 Hb); [exact (scan_step_pp_endif cls st n l _ _ K Hs)|].
      rewrite length_app in Ht; simpl in Ht; lia.
Qed.

(** Extra: a run of lines whose [#if] / [#else] / [#endif] directives are
    well nested ([#elif] and other directives count as plain lines) leaves the
    preprocessor stack and [editor_depth] of [parse_header]'s loop as it found
    them, so the lines after it are filtered exactly as the lines before it. *)
Theorem balanced_directives_restore_depth (cls : string) (ls : list (list ascii))
    (st : ScanState) (n : Z) :
  pp_balanced 0 ls = true -> depth_inv st ->
  editor_depth (scan_lines cls st n ls) = editor_depth st /\
  pp_depth_stack (scan_lines cls st n ls) = pp_depth_stack st.
Proof.
  intros Hb Hd.
  assert (Hs : pp_depth_stack (scan_lines cls st n ls) = pp_depth_stack st)
    by (apply (scan_lines_pp_stack cls ls 0 st n (pp_depth_stack st) [] Hb);
        [rewrite app_nil_r|]; reflexivity).
  split; [|exact Hs].
  pose proof (scan_lines_inv cls ls st n Hd) as Hd'.
  unfold depth_inv in Hd, Hd'; rewrite Hd', Hs, Hd; reflexivity.
Qed.

Lemma balanced_directives_restore_depth_witness :
  pp_balanced 0 (map chars ex_pp_lines) = true /\ depth_inv scan_init /\
  editor_depth (scan_lines "Foo" scan_init 1 (map chars ex_pp_lines)) = 0 /\
  pp_depth_stack (scan_lines "Foo" scan_init 1 (map chars ex_pp_lines)) = [].
Proof.
  assert (H1 : pp_balanced 0 (map chars ex_pp_lines) = true) by (vm_compute; reflexivity).
  assert (H2 : depth_inv scan_init) by reflexivity.
  split; [exact H1|]; split; [exact H2|].
  exact (balanced_directives_restore_depth "Foo" _ scan_init 1 H1 H2).
Defined.

Lemma lstrip_ws_suffix (l : list ascii) : exists pre, l = pre ++ lstrip_ws l.
Proof.
  induction l as [|c r IH]; [exists []; reflexivity|]; simpl.
  destruct (is_space c); [|exists []; reflexivity].
  destruct IH as [pre E]; exists (c :: pre); simpl; rewrite <- E; reflexivity.
Qed.

Lemma lstrip_ws_head (l : list ascii) (c : ascii) (r : list ascii) :
  lstrip_ws l = c :: r -> is_space c = false.
Proof.
  induction l as [|x l IH]; simpl; [discriminate|].
  destruct (is_space x) eqn:E; [exact IH|]; intros H; injection H as <- _; exact E.
Qed.

Lemma lstrip_ws_idem (l : list ascii) : lstrip_ws (lstrip_ws l) = lstrip_ws l.
Proof.
  induction l as [|x l IH]; simpl; [reflexivity|].
  destruct (is_space x) eqn:E; [exact IH|]; simpl; rewrite E; reflexivity.
Qed.

Lemma lstrip_ws_nonspace_head (c : ascii) (r : list ascii) :
  is_space c = false -> lstrip_ws (c :: r) = c :: r.
Proof. intros H; simpl; rewrite H; reflexivity. Qed.

Lemma strip_idem (l : list ascii) : strip (strip l) = strip l.
Proof.
  unfold strip at 2 3.
  set (m := lstrip_ws l).
  destruct (lstrip_ws_suffix (rev m)) as [pre Epre].
  assert (Hm : m = rev (lstrip_ws (rev m)) ++ rev pre)
    by (rewrite <- rev_app_distr, <- Epre, rev_involutive; reflexivity).
  assert (Hl : lstrip_ws (rev (lstrip_ws (rev m))) = rev (lstrip_ws (rev m))).
  { destruct (rev (lstrip_ws (rev m))) as [|c r] eqn:Er; [reflexivity|].
    apply lstrip_ws_nonspace_head.
    try rewrite Er in Hm; simpl in Hm.
    apply (lstrip_ws_head l c (r ++ rev pre)); exact Hm. }
  unfold strip; rewrite Hl, rev_involutive, lstrip_ws_idem; reflexivity.
Qed.

Lemma hash_kw_prefix (w : list ascii) (r : rx) (s : list ascii) (cs : caps) :
  run_at (RSeq (lit "#") (RSeq s_star (RSeq (RLit w) r))) (Pos [] s) = Some cs ->
  exists sp rest, forallb is_space sp = true /\ s = chars "#" ++ sp ++ w ++ rest.
Proof.
  unfold run_at; rewrite mt_seq_eq; intros H.
  apply mt_lit_inv in H as [P0 H]; cbn [pafter] in P0.
  rewrite mt_seq_eq in H; unfold s_star in H.
  apply mt_cls_inv in H as (i & _ & Hf & _ & P1 & H).
  rewrite mt_seq_eq in H; apply mt_lit_inv in H as [P2 _].
  eexists; eexists; split; [exact Hf|].
  etransitivity; [exact P0|]; f_equal.
  etransitivity; [exact P1|]; f_equal; exact P2.
Qed.

Lemma take_while_app_ge (c : ascii -> bool) (sp r : list ascii) :
  forallb c sp = true -> (length sp <= length (take_while c (sp ++ r)))%nat.
Proof.
  induction sp as [|a sp IH]; simpl; [lia|].
  destruct (c a); simpl; [intros H; specialize (IH H); lia | discriminate].
Qed.

Lemma first_some_found {A B : Type} (xs : list A) (f : A -> option B) (x : A) :
  In x xs -> found (f x) = true -> found (first_some xs f) = true.
Proof.
  induction xs as [|y r IH]; simpl; [tauto|].
  intros [<-|Hin] Hf.
  - destruct (f y); [reflexivity|discriminate].
  - destruct (f y); [reflexivity|auto].
Qed.

Lemma pafter_advance (z : pos) (n : nat) : pafter (advance z n) = skipn n (pafter z).
Proof. reflexivity. Qed.

Lemma is_prefix_app_true (s r : list ascii) : is_prefix s (s ++ r) = true.
Proof.
  induction s as [|a s IH]; [reflexivity|]; cbn [is_prefix app].
  rewrite IH, andb_true_r; unfold achar_eqb; apply Ascii.eqb_refl.
Qed.

Lemma mt_lit_ok {R : Type} (s : list ascii) (z : pos) (cs : caps)
    (k : pos -> caps -> option R) :
  is_prefix s (pafter z) = true -> mt (RLit s) z cs k = k (advance z (length s)) cs.
Proof. intros H; cbn [mt]; rewrite H; reflexivity. Qed.

Lemma re_pp_if_of_prefix (sp rest : list ascii) :
  forallb is_space sp = true ->
  found (re_match re_pp_if (chars "#" ++ sp ++ chars "if" ++ rest)) = true.
Proof.
  intros Hsp; unfold re_match, run_at, re_pp_if; cbn [rseq]; rewrite mt_seq_eq.
  unfold lit at 1; rewrite mt_lit_ok by (cbn [pafter]; apply is_prefix_app_true).
  rewrite mt_seq_eq; unfold s_star; cbn [mt].
  assert (A : pafter (advance (Pos [] (chars "#" ++ sp ++ chars "if" ++ rest))
                              (length (chars "#"))) = sp ++ chars "if" ++ rest)
    by reflexivity.
  apply (first_some_found _ _ (length sp)).
  - rewrite <- in_rev, A; apply in_seq.
    pose proof (take_while_app_ge is_space sp (chars "if" ++ rest) Hsp); lia.
  - unfold lit; rewrite mt_lit_ok; [reflexivity|].
    rewrite pafter_advance, A, skipn_app, skipn_all, Nat.sub_diag; cbn [skipn app].
    apply is_prefix_app_true.
Qed.

Lemma editor_ifdef_shape (raw : list ascii) :
  _is_editor_ifdef (strip raw) = true ->
  exists sp rest, forallb is_space sp = true /\ strip raw = chars "#" ++ sp ++ chars "if" ++ rest.
Proof.
  unfold _is_editor_ifdef; cbv zeta; rewrite strip_idem.
  intros H; apply existsb_exists in H as (m & _ & H); apply orb_true_iff in H as [H|H].
  - destruct (re_match (re_if_macro m) (strip raw)) as [c|] eqn:E; [|discriminate].
    unfold re_match, re_if_macro in E; cbn [rseq] in E.
    exact (hash_kw_prefix _ _ _ _ E).
  - destruct (re_match (re_ifdef_macro m) (strip raw)) as [c|] eqn:E; [|discriminate].
    unfold re_match, re_ifdef_macro in E; cbn [rseq] in E.
    destruct (hash_kw_prefix _ _ _ _ E) as (sp & rest & Hsp & Es).
    exists sp, (chars "def" ++ rest); split; [exact Hsp|]; rewrite Es; reflexivity.
Qed.

(** Extra: editor-only groups open on [#if]: every line whose stripped text
    [_is_editor_ifdef] accepts (an [#if]/[#ifdef] of an editor macro) is
    taken by the [#if] branch of [parse_header]'s loop, so it raises
    [editor_depth] by one and pushes [True] on [pp_depth_stack], whatever
    the state. *)
Theorem editor_ifdef_opens_group (cls : string) (st : ScanState) (n : Z) (raw : list ascii) :
  _is_editor_ifdef (strip raw) = true ->
  editor_depth (scan_step cls st n raw) = editor_depth st + 1 /\
  pp_depth_stack (scan_step cls st n raw) = pp_depth_stack st ++ [true].
Proof.
  intros H; destruct (editor_ifdef_shape raw H) as (sp & rest & Hsp & E).
  assert (P : is_prefix (chars "#") (strip raw) = true)
    by (rewrite E; apply is_prefix_app_true).
  assert (F : found (re_match re_pp_if (strip raw)) = true)
    by (rewrite E; apply re_pp_if_of_prefix, Hsp).
  unfold scan_step; cbv zeta; rewrite P; unfold pp_step; rewrite F, H.
  split; reflexivity.
Qed.

Lemma editor_ifdef_opens_group_witness :
  let raw := chars "  #  ifdef WITH_EDITORONLY_DATA  " in
  _is_editor_ifdef (strip raw) = true /\
  (editor_depth (scan_step "UObject" scan_init 3 raw) = editor_depth scan_init + 1 /\
   pp_depth_stack (scan_step "UObject" scan_init 3 raw) = pp_depth_stack scan_init ++ [true]).
Proof.
  intros raw; split; [vm_compute; reflexivity|].
  apply (editor_ifdef_opens_group "UObject" scan_init 3 raw); vm_compute; reflexivity.
Defined.

(* ------------------------------------------------------------------ *)
(** ** Classifier: [override] declarations *)





(* ------------------------------------------------------------------ *)
(** ** Scanner: blocks under a recognised editor guard *)

Lemma scan_state_frame_eq (a b : ScanState) :
  scan_frame a = scan_frame b -> editor_depth a = editor_depth b ->
  pp_depth_stack a = pp_depth_stack b -> a = b.
Proof.
  destruct a, b; unfold scan_frame; cbn; intros H He Hs.
  injection H as -> -> -> -> -> ->; subst; reflexivity.
Qed.

Lemma count_true_guard (s0 t : list bool) : 0 < count_true (s0 ++ true :: t).
Proof. unfold count_true; rewrite filter_app, length_app; simpl; lia. Qed.

Lemma scan_step_plain_guarded (cls : string) (st : ScanState) (n : Z) (l : list ascii) :
  pp_kind l = KPlain -> 0 < editor_depth st -> scan_step cls st n l = st.
Proof.
  unfold pp_kind; cbv zeta.
  destruct (is_prefix (chars "#") (strip l)) eqn:P.
  - cbn [negb]; intros K Hz; unfold scan_step; rewrite P; unfold pp_step.
    destruct (found (re_match re_pp_if (strip l))); [discriminate|].
    destruct (found (re_match re_pp_elif (strip l))); [reflexivity|].
    destruct (found (re_match re_pp_else (strip l))); [discriminate|].
    destruct (found (re_match re_pp_endif (strip l))); [discriminate|reflexivity].
  - intros _ Hz; apply scan_step_guarded; [exact P | exact Hz].
Qed.

Lemma scan_step_directive_frame (cls : string) (st : ScanState) (n : Z) (l : list ascii) :
  is_prefix (chars "#") (strip l) = true -> scan_frame (scan_step cls st n l) = scan_frame st.
Proof.
  intros P; unfold scan_step; rewrite P.
  destruct (pp_step_keeps st (strip l)) as (H1 & H2 & H3 & H4 & H5 & H6).
  unfold scan_frame; rewrite H1, H2, H3, H4, H5, H6; reflexivity.
Qed.

(** Inside an open editor group (a [true] entry on the stack, [k] groups
    opened after it), a run of lines with well-nested directives changes
    nothing but the entries above that group. *)
Lemma guarded_block_frame (cls : string) (ls : list (list ascii)) :
  forall k st n s0 t, pp_balanced k ls = true -> depth_inv st ->
  pp_depth_stack st = s0 ++ true :: t -> length t = k ->
  scan_frame (scan_lines cls st n ls) = scan_frame st /\
  pp_depth_stack (scan_lines cls st n ls) = s0 ++ [true] /\
  depth_inv (scan_lines cls st n ls).
Proof.
  induction ls as [|l r IH]; intros k st n s0 t Hb Hd Hs Ht; cbn [scan_lines pp_balanced] in *.
  - apply Nat.eqb_eq in Hb; subst k; destruct t; [|discriminate].
    split; [reflexivity|]; split; [exact Hs|exact Hd].
  - assert (Hz : 0 < editor_depth st) by (unfold depth_inv in Hd; rewrite Hd, Hs; apply count_true_guard).
    pose proof (scan_step_inv cls st n l Hd) as Hd'.
    destruct (pp_kind l) eqn:K.
    + rewrite (scan_step_plain_guarded cls st n l K Hz); exact (IH k st _ s0 t Hb Hd Hs Ht).
    + pose proof (pp_kind_directive l KIf K ltac:(discriminate)) as P.
      destruct (scan_step_pp_if cls st n l K) as [e He].
      destruct (IH (S k) _ (n + 1) s0 (t ++ [e]) Hb Hd') as (H1 & H2 & H3);
        [rewrite He, Hs, <- app_assoc; reflexivity | rewrite length_app, Ht; simpl; lia|].
      rewrite H1, (scan_step_directive_frame cls st n l P); auto.
    + destruct k as [|k]; [discriminate|].
      pose proof (pp_kind_directive l KElse K ltac:(discriminate)) as P.
      destruct t as [|b t0] using rev_ind; [discriminate|].
      assert (Hs' : pp_depth_stack st = (s0 ++ true :: t0) ++ [b])
        by (rewrite Hs, <- app_assoc; reflexivity).
      destruct (scan_step_pp_else cls st n l _ _ K Hs') as [b' Hb'].
      destruct (IH (S k) _ (n + 1) s0 (t0 ++ [b']) Hb Hd') as (H1 & H2 & H3);
        [rewrite Hb', <- app_assoc; reflexivity | rewrite length_app in Ht |- *; exact Ht|].
      rewrite H1, (scan_step_directive_frame cls st n l P); auto.
    + destruct k as [|k]; [discriminate|].
      pose proof (pp_kind_directive l KEndif K ltac:(discriminate)) as P.
      destruct t as [|b t0] using rev_ind; [discriminate|].
      assert (Hs' : pp_depth_stack st = (s0 ++ true :: t0) ++ [b])
        by (rewrite Hs, <- app_assoc; reflexivity).
      pose proof (scan_step_pp_endif cls st n l _ _ K Hs') as He.
      destruct (IH k _ (n + 1) s0 t0 Hb Hd' He) as (H1 & H2 & H3);
        [rewrite length_app in Ht; simpl in Ht; lia|].
      rewrite H1, (scan_step_directive_frame cls st n l P); auto.
Qed.

Lemma scan_step_editor_open (cls : string) (st : ScanState) (n : Z) (raw : list ascii) :
  _is_editor_ifdef (strip raw) = true ->
  scan_frame (scan_step cls st n raw) = scan_frame st /\
  pp_depth_stack (scan_step cls st n raw) = pp_depth_stack st ++ [true].
Proof.
  intros H; destruct (editor_ifdef_shape raw H) as (sp & rest & Hsp & E).
  assert (P : is_prefix (chars "#") (strip raw) = true)
    by (rewrite E; apply is_prefix_app_true).
  assert (F : found (re_match re_pp_if (strip raw)) = true)
    by (rewrite E; apply re_pp_if_of_prefix, Hsp).
  split; [apply scan_step_directive_frame, P|].
  unfold scan_step; cbv zeta; rewrite P; unfold pp_step; rewrite F, H; reflexivity.
Qed.

(** C6 *)
(** Claim C6 (as amended): take a guard line that [_is_editor_ifdef]
    recognises ([#if MACRO], [#if defined(MACRO)] or [#ifdef MACRO] with
    [MACRO] one of [EDITOR_MACROS] as the first operand) and the lines after
    it up to its matching [#else] or [#endif] (their own [#if] / [#else] /
    [#endif] directives well nested; [#elif] does not end the group).  Those
    lines are all discarded: replacing each of them by a blank line leaves
    [parse_header]'s result unchanged, whatever comes before and after, so a
    [virtual] declaration among them produces no entry. *)
Theorem editor_guard_block_discarded (filepath class_name : string)
    (pre body post : list string) (g : string) :
  _is_editor_ifdef (strip (chars g)) = true ->
  pp_balanced 0 (map chars body) = true ->
  parse_header (Some (pre ++ g :: body ++ post)) filepath class_name =
  parse_header (Some (pre ++ g :: map (fun _ => ""%string) body ++ post)) filepath class_name.
Proof.
  intros Hg Hb; unfold parse_header.
  change (pre ++ g :: body ++ post) with (pre ++ [g] ++ body ++ post).
  change (pre ++ g :: map (fun _ => ""%string) body ++ post)
    with (pre ++ [g] ++ map (fun _ => ""%string) body ++ post).
  rewrite !map_app, !scan_lines_app, !length_map.
  set (S1 := scan_lines class_name scan_init 1 (map chars pre)).
  assert (Hd1 : depth_inv S1) by (apply scan_lines_inv; reflexivity).
  set (n1 := 1 + Z.of_nat (length pre)).
  assert (E2 : scan_lines class_name S1 n1 (map chars [g]) = scan_step class_name S1 n1 (chars g))
    by reflexivity.
  rewrite E2; set (S2 := scan_step class_name S1 n1 (chars g)).
  destruct (scan_step_editor_open class_name S1 n1 (chars g) Hg) as [F2 P2].
  fold S2 in F2, P2.
  assert (Hd2 : depth_inv S2) by (apply scan_step_inv, Hd1).
  assert (Hz : 0 < editor_depth S2)
    by (unfold depth_inv in Hd2; rewrite Hd2, P2; apply count_true_guard).
  set (n2 := n1 + Z.of_nat (length [g])).
  assert (A : scan_lines class_name S2 n2 (map chars body) = S2).
  { destruct (guarded_block_frame class_name (map chars body) 0 S2 n2 (pp_depth_stack S1) []
                Hb Hd2 P2 eq_refl) as (H1 & H2 & H3).
    apply scan_state_frame_eq; [exact H1| |rewrite H2, P2; reflexivity].
    unfold depth_inv in H3, Hd2; rewrite H3, Hd2, H2, P2; reflexivity. }
  assert (B : scan_lines class_name S2 n2 (map chars (map (fun _ => ""%string) body)) = S2).
  { apply scan_lines_guarded; [|exact Hz].
    apply List.Forall_forall; intros l Hin.
    apply in_map_iff in Hin as (x & <- & Hx); apply in_map_iff in Hx as (y & <- & _).
    reflexivity. }
  rewrite A, B; reflexivity.
Qed.

Lemma editor_guard_block_discarded_witness :
  _is_editor_ifdef (strip (chars ex_guard_open)) = true /\
  pp_balanced 0 (map chars ex_guard_body) = true /\
  parse_header (Some (ex_guard_pre ++ ex_guard_open :: ex_guard_body ++ ex_guard_post)) "Foo.h" "Foo" =
  parse_header (Some (ex_guard_pre ++ ex_guard_open :: map (fun _ => ""%string) ex_guard_body
                        ++ ex_guard_post)) "Foo.h" "Foo".
Proof.
  assert (H1 : _is_editor_ifdef (strip (chars ex_guard_open)) = true) by (vm_compute; reflexivity).
  assert (H2 : pp_balanced 0 (map chars ex_guard_body) = true) by (vm_compute; reflexivity).
  split; [exact H1|]; split; [exact H2|].
  exact (editor_guard_block_discarded "Foo.h" "Foo" _ _ _ _ H1 H2).
Defined.

(** Counterexample to C6 as stated: a guard that names [WITH_EDITOR] but not
    as the first operand of [#if] ([#if (WITH_EDITOR)], [#if FOO && WITH_EDITOR])
    is not recognised by [_is_editor_ifdef], and the declaration it guards is
    recorded. *)
Lemma editor_guard_not_first_operand :
  _is_editor_ifdef (chars "#if (WITH_EDITOR)") = false /\
  parse_header (Some ex_guard_paren) "Foo.h" "Foo" = ([mkVF "EditorOnly" false 3], []) /\
  _is_editor_ifdef (chars "#if FOO && WITH_EDITOR") = false /\
  parse_header (Some ex_guard_and) "Foo.h" "Foo" = ([mkVF "EditorOnly" false 3], []).
Proof. vm_compute; repeat split. Qed.

(* ------------------------------------------------------------------ *)
(** ** Classifier: function names *)

Lemma fallback_loop_found (parts rest : list (list ascii)) :
  (exists pre post, rest = pre ++ chars "virtual" :: post /\ post <> []) ->
  lstrip_ptr (List.last parts []) <> [] ->
  fallback_loop parts rest = Some (lstrip_ptr (List.last parts [])).
Proof.
  intros Hv Hn; induction rest as [|p rest IH].
  - destruct Hv as ([|x pre] & post & E & _); discriminate.
  - destruct Hv as (pre & post & E & Hp); cbn [fallback_loop].
    destruct (lstrip_ptr (List.last parts [])) as [|c l] eqn:El; [congruence|].
    destruct pre as [|x pre]; cbn in E; injection E as E1 E2.
    + subst p rest; rewrite str_eqb_refl; destruct post; [congruence|reflexivity].
    + destruct (str_eqb p (chars "virtual")).
      * subst rest; destruct (pre ++ _) eqn:Er; [destruct pre; discriminate|reflexivity].
      * apply IH; exists pre, post; auto.
Qed.

Lemma ident_name_nonempty (t : list ascii) : ident_name t = true -> t <> [].
Proof. destruct t; [discriminate|]; intros _; discriminate. Qed.

(** C8 *)
(** Claim C8 (as amended): for a declaration the destructor pattern does
    not match, [_extract_func_name] always returns (it never raises) a
    non-empty name, and [is_destructor] is true exactly when that name starts
    with [~].  When [_RE_FUNC_NAME] matches, the name is the identifier it
    captures right before the [(] that follows [virtual] and the return-type
    tokens, with [is_destructor = false].  Otherwise, when some [virtual]
    token is followed by another token before the first [(] and the last of
    these tokens, with leading [*] and [&] removed, is an identifier or [~]
    followed by an identifier, that is the name (so
    [virtual FORCEINLINE ~UObject();] gives a destructor [~UObject]); when no
    [virtual] token is followed by another one there, or that last token is
    only [*] and [&], the name is the sentinel ["unknown"] with
    [is_destructor = false]. *)
Theorem extract_func_name_identifier (decl name : list ascii) (is_dtor : bool) :
  group1 (re_search _RE_DESTRUCTOR decl) = None ->
  _extract_func_name decl = (name, is_dtor) ->
  (is_dtor = true <-> starts_tilde name = true) /\ name <> [] /\
  (forall g, group1 (re_search _RE_FUNC_NAME decl) = Some g ->
     name = g /\ is_dtor = false /\ is_ident name = true /\
     exists pre mid sp post,
       decl = pre ++ chars "virtual" ++ mid ++ name ++ sp ++ "("%char :: post /\
       ~ In "("%char mid /\ forallb is_space sp = true /\
       exists mid' c, is_space c = true /\ mid = mid' ++ [c]) /\
  (group1 (re_search _RE_FUNC_NAME decl) = None ->
     let parts := split_ws (before_char "("%char decl) in
     let last_tok := lstrip_ptr (List.last parts []) in
     ((exists pre post, parts = pre ++ chars "virtual" :: post /\ post <> []) ->
        ident_name last_tok = true -> name = last_tok) /\
     ((last_tok = [] \/ forall pre post, parts = pre ++ chars "virtual" :: post -> post = []) ->
        name = chars "unknown" /\ is_dtor = false)).
Proof.
  intros Hd He; unfold _extract_func_name in He; rewrite Hd in He.
  destruct (group1 (re_search _RE_FUNC_NAME decl)) as [g|] eqn:Hf.
  - injection He as <- <-.
    destruct (func_name_match _ _ Hf) as (Hne & Hw & Hm).
    assert (Ht : starts_tilde g = false).
    { destruct g as [|c r]; [congruence|]; simpl in Hw.
      change (achar_eqb "~"%char c && is_prefix [] r = false).
      unfold achar_eqb; destruct (Ascii.eqb_spec "~" c) as [<-|_]; [|reflexivity].
      vm_compute in Hw; discriminate. }
    split; [rewrite Ht; split; discriminate|]; split; [exact Hne|].
    split; [|discriminate].
    intros g' Hg'; injection Hg' as <-.
    split; [reflexivity|]; split; [reflexivity|]; split; [|exact Hm].
    destruct g; [congruence|exact Hw].
  - cbv zeta.
    set (parts := split_ws (before_char "("%char decl)) in *.
    destruct (fallback_loop parts parts) as [n|] eqn:Hb.
    + injection He as <- <-.
      destruct (fallback_loop_some _ _ _ Hb) as (Hn & Hne & Hv).
      split; [split; auto|]; split; [exact Hne|].
      split; [discriminate|]; intros _; split.
      * intros _ _; exact Hn.
      * intros [Hl | Hall]; [congruence|].
        destruct Hv as (pre & post & E & Hp); exfalso; exact (Hp (Hall pre post E)).
    + injection He as <- <-.
      split; [split; discriminate|]; split; [discriminate|].
      split; [discriminate|]; intros _; split; [|auto].
      intros Hv Hid.
      rewrite (fallback_loop_found parts parts Hv (ident_name_nonempty _ Hid)) in Hb.
      discriminate.
Qed.

Lemma extract_func_name_identifier_witness :
  group1 (re_search _RE_DESTRUCTOR (chars "virtual FORCEINLINE ~UObject();")) = None /\
  _extract_func_name (chars "virtual FORCEINLINE ~UObject();") = (chars "~UObject", true) /\
  (true = true <-> starts_tilde (chars "~UObject") = true).
Proof.
  assert (H1 : group1 (re_search _RE_DESTRUCTOR (chars "virtual FORCEINLINE ~UObject();")) = None)
    by (vm_compute; reflexivity).
  assert (H2 : _extract_func_name (chars "virtual FORCEINLINE ~UObject();") = (chars "~UObject", true))
    by (vm_compute; reflexivity).
  split; [exact H1|]; split; [exact H2|].
  exact (proj1 (extract_func_name_identifier _ _ _ H1 H2)).
Defined.

(** Counterexample to C8 as stated: [virtual FORCEINLINE ~UObject();] is a
    virtual, non-override declaration that the destructor pattern does not
    match (a token stands between [virtual] and [~]), yet the fallback keeps
    the [~] and the recorded slot has [is_destructor = true]. *)
Lemma extract_func_name_tilde_fallback :
  found (re_search _RE_VIRTUAL (chars "virtual FORCEINLINE ~UObject();")) = true /\
  found (re_search _RE_OVERRIDE (chars "virtual FORCEINLINE ~UObject();")) = false /\
  group1 (re_search _RE_DESTRUCTOR (chars "virtual FORCEINLINE ~UObject();")) = None /\
  _process_declaration (chars "virtual FORCEINLINE ~UObject();") 7 [] =
    [mkVF "~UObject" true 7].
Proof. vm_compute; repeat split. Qed.
